(** * plot_slugs: extraction and rendering pipeline of lib/doppler/vis/plot_slugs.py

    The script reads the Forge test output from standard input, finds the
    [Logs:] marker, collects the block of JSON-shaped lines that follows it,
    and renders one chart per parsed record.  This file embeds the script as
    Rocq functions and proves the properties of its specification.

    Text is modelled as [string] over [ascii], i.e. code points below 256.
    Floating-point values are IEEE binary64 numbers, modelled by the Standard
    Library's [spec_float] at precision 53 and exponent bound 1024. *)

From Stdlib Require Import ZArith NArith List Bool Ascii String Lia.
From Stdlib Require Import DecimalString DecimalNat DecimalZ.
From Stdlib Require Import Floats.SpecFloat.
From stdpp Require Import gmap strings.

Local Open Scope string_scope.
Local Open Scope list_scope.

(** ** Characters and strings *)

Module Text.

(** Python's notion of whitespace for [str] ([str.strip], and [\s] in a
    [str] pattern): code points 9-13, 28-32, 0x85 and 0xA0 among those
    below 256. *)
Definition is_space (c : ascii) : bool :=
  let n := N_of_ascii c in
  ((9 <=? n) && (n <=? 13) || (28 <=? n) && (n <=? 32)
   || (n =? 133) || (n =? 160))%N.

(** Line boundaries of [str.splitlines]: \n, \v, \f, \r, \x1c, \x1d, \x1e
    and \x85 (and the pair \r\n, handled in [splitlines]). *)
Definition is_linebreak (c : ascii) : bool :=
  let n := N_of_ascii c in
  ((10 <=? n) && (n <=? 13) || (28 <=? n) && (n <=? 30) || (n =? 133))%N.

Definition LF : ascii := ascii_of_N 10.
Definition CR : ascii := ascii_of_N 13.

(** [output.splitlines()]: the line terminators are dropped, \r\n counts as
    one terminator, and a terminator at the very end opens no further
    line. *)
Fixpoint splitlines (s : string) : list string :=
  match s with
  | EmptyString => []
  | String c s' =>
      if is_linebreak c then
        match s' with
        | String c' s'' =>
            if Ascii.eqb c CR && Ascii.eqb c' LF
            then EmptyString :: splitlines s''
            else EmptyString :: splitlines s'
        | EmptyString => [EmptyString]
        end
      else
        match splitlines s' with
        | [] => [String c EmptyString]
        | l :: ls => String c l :: ls
        end
  end.

(** [needle in hay] *)
Fixpoint contains (needle hay : string) : bool :=
  String.prefix needle hay ||
  match hay with
  | EmptyString => false
  | String _ hay' => contains needle hay'
  end.

Fixpoint lstrip (s : string) : string :=
  match s with
  | String c s' => if is_space c then lstrip s' else s
  | EmptyString => EmptyString
  end.

Definition all_space (s : string) : bool :=
  match lstrip s with EmptyString => true | _ => false end.

Fixpoint rstrip (s : string) : string :=
  match s with
  | EmptyString => EmptyString
  | String c s' => if all_space s then EmptyString else String c (rstrip s')
  end.

(** [line.strip()] *)
Definition strip (s : string) : string := rstrip (lstrip s).

End Text.

(** ** Regular expressions, as far as the script's pattern needs them *)

Module Re.

Inductive regex : Type :=
| Never
| Eps
| EndOfString                      (* [$] *)
| Class (p : ascii -> bool)
| Cat (r1 r2 : regex)
| Alt (r1 r2 : regex)
| Star (r : regex).

(** Can [r] match the empty word when [rest] is what remains of the input?
    [$] holds at the end of the input and just before a final newline. *)
Fixpoint nullable (rest : string) (r : regex) : bool :=
  match r with
  | Never => false
  | Eps => true
  | EndOfString =>
      match rest with
      | EmptyString => true
      | String c EmptyString => Ascii.eqb c Text.LF
      | _ => false
      end
  | Class _ => false
  | Cat r1 r2 => nullable rest r1 && nullable rest r2
  | Alt r1 r2 => nullable rest r1 || nullable rest r2
  | Star _ => true
  end.

(** Derivative of [r] by the character [c], read in front of [rest]. *)
Fixpoint deriv (c : ascii) (rest : string) (r : regex) : regex :=
  match r with
  | Never | Eps | EndOfString => Never
  | Class p => if p c then Eps else Never
  | Cat r1 r2 =>
      let left := Cat (deriv c rest r1) r2 in
      if nullable (String c rest) r1 then Alt left (deriv c rest r2) else left
  | Alt r1 r2 => Alt (deriv c rest r1) (deriv c rest r2)
  | Star r1 => Cat (deriv c rest r1) (Star r1)
  end.

(** [re.match(r, s)]: some prefix of [s] matches [r]. *)
Fixpoint re_match (r : regex) (s : string) : bool :=
  nullable s r ||
  match s with
  | EmptyString => false
  | String c s' => re_match (deriv c s' r) s'
  end.

Definition lit (c : ascii) : regex := Class (Ascii.eqb c).
(** [\s] *)
Definition space : regex := Class Text.is_space.
(** [.], any character except a newline *)
Definition dot : regex := Class (fun c => negb (Ascii.eqb c Text.LF)).

End Re.

(** ** Log extractor (lines 13-38 of the script) *)

Section Extractor.

(** [for idx, line in enumerate(lines): if 'Logs:' in line: ... break] *)
Fixpoint find_logs_from (idx : nat) (lines : list string) : option nat :=
  match lines with
  | [] => None
  | line :: rest =>
      if Text.contains "Logs:" line then Some idx
      else find_logs_from (S idx) rest
  end.

Definition logs_index (lines : list string) : option nat :=
  find_logs_from 0 lines.

(** The pattern [\s*\{.*\}\s*$]. *)
Definition json_line_re : Re.regex :=
  Re.Cat (Re.Star Re.space)
    (Re.Cat (Re.lit "{")
       (Re.Cat (Re.Star Re.dot)
          (Re.Cat (Re.lit "}")
             (Re.Cat (Re.Star Re.space) Re.EndOfString)))).

Definition is_json_line (line : string) : bool :=
  Re.re_match json_line_re line.

(** The collecting loop: append the stripped line while the pattern matches,
    [break] at the first line that does not. *)
Fixpoint collect_json (lines : list string) : list string :=
  match lines with
  | [] => []
  | line :: rest =>
      if is_json_line line then Text.strip line :: collect_json rest
      else []
  end.

End Extractor.

(** ** Numbers

    [json.loads] yields Python integers (unbounded) and binary64 floats. *)

Module Num.

Definition prec : Z := 53.
Definition emax : Z := 1024.

Abbreviation float := spec_float.

Definition nan : float := S754_nan.

(** [float(z)]: the nearest binary64 number, ties to even. *)
Definition of_Z (z : Z) : float := binary_normalize prec emax z 0 false.

Definition div : float -> float -> float := SFdiv prec emax.
Definition add : float -> float -> float := SFadd prec emax.
Definition sub : float -> float -> float := SFsub prec emax.

Definition zero : float := S754_zero false.

(** [x > 0], false for NaN *)
Definition is_pos (x : float) : bool := SFltb zero x.
(** [x <= 0], false for NaN *)
Definition is_nonpos (x : float) : bool := SFleb x zero.

Definition is_nan (x : float) : bool :=
  match x with S754_nan => true | _ => false end.

Definition is_inf (x : float) : bool :=
  match x with S754_infinity _ => true | _ => false end.

(** The literal [1e18]; 10^18 = 2^18 * 5^18 is a binary64 number. *)
Definition f1e18 : float := Eval vm_compute in of_Z (10 ^ 18).
(** The literals [0.1] and [1.1], rounded to binary64 as Python reads them. *)
Definition f0_1 : float := S754_finite false 7205759403792794 (-56).
Definition f1_1 : float := S754_finite false 4953959590107546 (-52).

Inductive number : Type :=
| NInt (z : Z)
| NFloat (f : float).

Definition to_float (n : number) : float :=
  match n with
  | NInt z => of_Z z
  | NFloat f => f
  end.

(** Maximum and minimum of a column with [skipna]: NaN cells are passed
    over, and a column of NaN only gives NaN. *)
Definition fmax (a b : float) : float :=
  if is_nan a then b else if SFltb a b then b else a.
Definition fmin (a b : float) : float :=
  if is_nan a then b else if SFltb b a then b else a.

Definition nanmax (col : list float) : float := fold_left fmax col nan.

Definition nanmin (col : list float) : float := fold_left fmin col nan.

(** The integers pandas stores as int64, and the value an int64 holds after
    an arithmetic result [z]: numpy's int64 scalars wrap around on
    overflow. *)
Definition int64 (z : Z) : bool := ((- 2 ^ 63 <=? z) && (z <? 2 ^ 63))%Z.
Definition wrap64 (z : Z) : Z := ((z + 2 ^ 63) mod 2 ^ 64 - 2 ^ 63)%Z.

End Num.

Export Num(number(..)).

(** ** Data model

    A parsed record, as far as the script looks at it: the [data] list of
    slug entries, and the two fields the specification places at the top
    level.  The fields have the types of the specification's data model
    (integer ticks, numeric liquidity and current tick, a string name, a
    scalar timestamp), and every one of them may be absent.  Integers are
    taken in the range pandas stores as 64-bit integers. *)

Inductive scalar : Type :=
| SNum (n : number)
| SStr (s : string).

Record slug_entry : Type := {
  tickLower : option Z;
  tickUpper : option Z;
  liquidity : option number;
  slugName : option string;
  timestamp : option scalar;
  currentTick : option number
}.

Record record : Type := {
  rec_data : option (list slug_entry);
  rec_timestamp : option scalar;
  rec_currentTick : option number
}.

(** Values held by a table: [CFloat Num.nan] is pandas' missing value. *)
Inductive cell : Type :=
| CInt (z : Z)
| CFloat (f : Num.float)
| CStr (s : string).

Inductive exn : Type :=
| KeyError (k : string)
| TypeError
| OverflowError
| ValueError
| IndexError
| RecursionError
| OSError.

(** The columns the script reads. *)
Definition keys : list string :=
  ["tickLower"; "tickUpper"; "liquidity"; "slugName"; "timestamp";
   "currentTick"].

(** [entry.get(k)] on the modelled keys. *)
Definition field (k : string) (e : slug_entry) : option scalar :=
  if String.eqb k "tickLower" then (fun z => SNum (NInt z)) <$> tickLower e
  else if String.eqb k "tickUpper" then (fun z => SNum (NInt z)) <$> tickUpper e
  else if String.eqb k "liquidity" then SNum <$> liquidity e
  else if String.eqb k "slugName" then SStr <$> slugName e
  else if String.eqb k "timestamp" then timestamp e
  else if String.eqb k "currentTick" then SNum <$> currentTick e
  else None.

(** *** Column types

    pandas keeps a column of integers as integers, turns a numeric column
    with a float or a missing cell into float64 (missing cells become NaN),
    and keeps a column with a string as objects. *)

Definition is_int (c : option scalar) : bool :=
  match c with Some (SNum (NInt _)) => true | _ => false end.

Definition is_str (c : option scalar) : bool :=
  match c with Some (SStr _) => true | _ => false end.

Definition present {A} (c : option A) : bool :=
  match c with Some _ => true | None => false end.

Definition object_cell (c : option scalar) : cell :=
  match c with
  | Some (SNum (NInt z)) => CInt z
  | Some (SNum (NFloat f)) => CFloat f
  | Some (SStr s) => CStr s
  | None => CFloat Num.nan
  end.

Definition float_cell (c : option scalar) : cell :=
  match c with
  | Some (SNum n) => CFloat (Num.to_float n)
  | Some (SStr s) => CStr s
  | None => CFloat Num.nan
  end.

(** The conversion the column of raw cells [raw] applies to each cell. *)
Definition coerce (raw : list (option scalar)) : option scalar -> cell :=
  if existsb is_str raw then object_cell
  else if forallb is_int raw then object_cell
  else float_cell.

Definition infer_column (raw : list (option scalar)) : list cell :=
  map (coerce raw) raw.

(** A table: its columns by name, each of [n_rows] cells. *)
Record frame : Type := {
  n_rows : nat;
  columns : gmap string (list cell)
}.

Definition raw_column (k : string) (slugs : list slug_entry)
  : list (option scalar) := map (field k) slugs.

(** [k in df.columns]: a key is a column when some entry carries it. *)
Definition has_column (k : string) (slugs : list slug_entry) : bool :=
  existsb present (raw_column k slugs).

Definition add_column (slugs : list slug_entry) (k : string)
    (cols : gmap string (list cell)) : gmap string (list cell) :=
  if has_column k slugs then <[k := infer_column (raw_column k slugs)]> cols
  else cols.

(** [pd.DataFrame(slugs)]: the columns are the keys that occur in some
    entry; an entry without the key of a column has the missing value
    there. *)
Definition DataFrame (slugs : list slug_entry) : frame :=
  {| n_rows := length slugs;
     columns := fold_right (add_column slugs) ∅ keys |}.

(** ** Plotting calls

    The chart of a record is the sequence of calls the script makes on its
    figure.  The value of [np.log] is kept symbolic. *)

Inductive yexpr : Type :=
| YInt (z : Z)
| YLog (x : cell)                         (* [np.log(x)] *)
| YPlus (e : yexpr) (f : Num.float)       (* [e + f] *)
| YTimes (e : yexpr) (f : Num.float).     (* [e * f] *)

Record rectangle : Type := {
  rect_x : cell;          (* lower left corner is [(rect_x, 0)] *)
  rect_width : cell;
  rect_height : yexpr;
  rect_label : cell
}.

Inductive call : Type :=
| Subplots
| AddPatch (r : rectangle)
| AxText (x : cell) (y : yexpr) (s : string)
| Axvline (x : option cell)
| SetXlim (lo hi : cell)
| SetYlim (lo : Z) (hi : yexpr)
| SetXlabel (s : string)
| SetYlabel (s : string)
| SetTitle (s : string)
| Legend
| Grid.

(** A computation that issues plotting calls and may raise. *)
Definition Plot (A : Type) : Type := (list call * (exn + A))%type.

Definition ret {A} (a : A) : Plot A := ([], inr a).
Definition raise {A} (e : exn) : Plot A := ([], inl e).
Definition emit (c : call) : Plot unit := ([c], inr tt).
Definition lift {A} (r : exn + A) : Plot A := ([], r).

Definition bind {A B} (m : Plot A) (f : A -> Plot B) : Plot B :=
  match m with
  | (t, inl e) => (t, inl e)
  | (t, inr a) => let '(t', r) := f a in (t ++ t', r)
  end.

Notation "x <- m ;; k" := (bind m (fun x => k))
  (at level 100, m at next level, right associativity).
Notation "m ;;; k" := (bind m (fun _ => k))
  (at level 100, right associativity).

(** *** Arithmetic on cells, as Python and numpy do it *)

Definition as_float (c : cell) : exn + Num.float :=
  match c with
  | CInt z => inr (Num.of_Z z)
  | CFloat f => inr f
  | CStr _ => inl TypeError
  end.

Definition float_op (op : Num.float -> Num.float -> Num.float)
    (a b : cell) : exn + cell :=
  match as_float a, as_float b with
  | inr x, inr y => inr (CFloat (op x y))
  | inl e, _ => inl e
  | _, inl e => inl e
  end.

Definition cell_sub (a b : cell) : exn + cell :=
  match a, b with
  | CInt x, CInt y => inr (CInt (x - y))
  | _, _ => float_op Num.sub a b
  end.

Definition cell_add (a b : cell) : exn + cell :=
  match a, b with
  | CInt x, CInt y => inr (CInt (x + y))
  | CStr x, CStr y => inr (CStr (x ++ y))
  | _, _ => float_op Num.add a b
  end.

(** True division [a / b]. *)
Definition cell_div (a b : cell) : exn + cell := float_op Num.div a b.

(** [a - b] and [a + b] where [a] is a numpy scalar, as [.min()] and
    [.max()] return it, and [b] a Python integer: for an int64 scalar the
    result is an int64 scalar, which wraps around. *)
Definition np_sub (a b : cell) : exn + cell :=
  match a, b with
  | CInt x, CInt y => inr (CInt (Num.wrap64 (x - y)))
  | _, _ => float_op Num.sub a b
  end.

Definition np_add (a b : cell) : exn + cell :=
  match a, b with
  | CInt x, CInt y => inr (CInt (Num.wrap64 (x + y)))
  | _, _ => float_op Num.add a b
  end.

(** [c > 0] *)
Definition cell_gt0 (c : cell) : exn + bool :=
  match c with
  | CInt z => inr (0 <? z)%Z
  | CFloat f => inr (Num.is_pos f)
  | CStr _ => inl TypeError
  end.

(** [float(z) / 1e18] on a cell of the [liquidity] column; an integer too
    large for a float raises. *)
Definition scale_cell (c : cell) : exn + cell :=
  match c with
  | CInt z =>
      let f := Num.of_Z z in
      if Num.is_inf f then inl OverflowError
      else inr (CFloat (Num.div f Num.f1e18))
  | CFloat f => inr (CFloat (Num.div f Num.f1e18))
  | CStr _ => inl TypeError
  end.

Fixpoint traverse {A B} (f : A -> exn + B) (l : list A) : exn + list B :=
  match l with
  | [] => inr []
  | a :: l' =>
      match f a with
      | inl e => inl e
      | inr b =>
          match traverse f l' with
          | inl e => inl e
          | inr bs => inr (b :: bs)
          end
      end
  end.

Fixpoint all_ints (col : list cell) : option (list Z) :=
  match col with
  | [] => Some []
  | CInt z :: col' => cons z <$> all_ints col'
  | _ :: _ => None
  end.

(** Extrema of a column with [skipna]. *)
Definition col_max (col : list cell) : exn + cell :=
  match all_ints col with
  | Some (z :: zs) => inr (CInt (fold_left Z.max zs z))
  | _ =>
      match traverse as_float col with
      | inr fs => inr (CFloat (Num.nanmax fs))
      | inl e => inl e
      end
  end.

Definition col_min (col : list cell) : exn + cell :=
  match all_ints col with
  | Some (z :: zs) => inr (CInt (fold_left Z.min zs z))
  | _ =>
      match traverse as_float col with
      | inr fs => inr (CFloat (Num.nanmin fs))
      | inl e => inl e
      end
  end.

(** matplotlib refuses an axis limit that is NaN or infinite.  The logarithm
    of a positive float is finite exactly when the float is. *)
Definition finite_cell (c : cell) : bool :=
  match c with
  | CFloat f => negb (Num.is_nan f || Num.is_inf f)
  | _ => true
  end.

Fixpoint finite_y (e : yexpr) : bool :=
  match e with
  | YInt _ => true
  | YLog x => finite_cell x
  | YPlus e' _ | YTimes e' _ => finite_y e'
  end.

Fixpoint log_args (e : yexpr) : list cell :=
  match e with
  | YInt _ => []
  | YLog x => [x]
  | YPlus e' _ | YTimes e' _ => log_args e'
  end.

(** [df[k]] *)
Definition getitem (df : frame) (k : string) : exn + list cell :=
  match columns df !! k with
  | Some col => inr col
  | None => inl (KeyError k)
  end.

(** [df['liquidity'] = df['liquidity'] / 1e18] (line 55) *)
Definition scale_liquidity (df : frame) : exn + frame :=
  match getitem df "liquidity" with
  | inl e => inl e
  | inr col =>
      match traverse scale_cell col with
      | inl e => inl e
      | inr scaled =>
          inr {| n_rows := n_rows df;
                 columns := <["liquidity" := scaled]> (columns df) |}
      end
  end.

(** [df[k].iloc[0] if k in df.columns else None] (lines 58 and 60) *)
Definition first_or_none (df : frame) (k : string) : exn + option cell :=
  match columns df !! k with
  | None => inr None
  | Some (c :: _) => inr (Some c)
  | Some [] => inl IndexError
  end.

(** [df.iterrows()]: each row maps the column names to its cells. *)
Definition iterrows (df : frame) : list (gmap string cell) :=
  map (fun i => omap (fun col : list cell => col !! i) (columns df))
    (seq 0 (n_rows df)).

(** [row[k]] *)
Definition row_get (row : gmap string cell) (k : string) : exn + cell :=
  match row !! k with
  | Some c => inr c
  | None => inl (KeyError k)
  end.

(** [ax.axvline(x, ...)]: matplotlib compares [x] with the bounds of the
    axis, which raises for [None]. *)
Definition axvline (x : option cell) : Plot unit :=
  match x with
  | Some _ => emit (Axvline x)
  | None => ([Axvline x], inl TypeError)
  end.

Definition set_xlim (lo hi : cell) : Plot unit :=
  if finite_cell lo && finite_cell hi then emit (SetXlim lo hi)
  else raise ValueError.

Definition set_ylim (lo : Z) (hi : yexpr) : Plot unit :=
  if finite_y hi then emit (SetYlim lo hi) else raise ValueError.

(** ** The state the script acts on: standard output and the directory
    the images are saved in. *)

Record world : Type := {
  stdout : list string;
  files : gmap string (list call)
}.

Definition print (s : string) (w : world) : world :=
  {| stdout := stdout w ++ [s]; files := files w |}.

(** What [plt.savefig] meets outside the script.  [draw_error fig] is the
    exception raised while the figure is drawn for the image, if any (the
    text of a label or title that matplotlib cannot typeset, for instance).
    [open_wb name] is what opening the path [name] for writing gives: the
    file the path denotes, or the exception raised (a missing directory, no
    permission, a NUL character in the name).  Two paths that reach the same
    file denote the same file.  The directories, links and permissions are
    taken as fixed during the run: the script creates files only. *)
Record backend : Type := {
  draw_error : list call -> option exn;
  open_wb : string -> exn + string
}.

(** [plt.savefig(name)]: the figure is drawn, the file is opened, and the
    image replaces whatever the file held.  [files] maps a file to the
    figure whose image it holds. *)
Definition savefig_result (plt : backend) (name : string) (fig : list call)
  : exn + string :=
  match draw_error plt fig with
  | Some e => inl e
  | None => open_wb plt name
  end.

Definition savefig (plt : backend) (name : string) (fig : list call)
    (w : world) : world :=
  match savefig_result plt name fig with
  | inr file => {| stdout := stdout w; files := <[file := fig]> (files w) |}
  | inl _ => w
  end.

(** What [json.loads] does with a line: it returns the parsed record,
    raises [JSONDecodeError] with a message, or raises another exception (a
    [ValueError] for an integer of more than 4300 digits, a [RecursionError]
    for nesting that is too deep). *)
Inductive parsed : Type :=
| Parsed (data : record)
| JSONDecodeError (msg : string)
| LoadsError (e : exn).

(** How the process ends: [sys.exit(code)] or falling off the end of the
    script (code 0), or an exception nobody catches. *)
Inductive status : Type :=
| Exit (code : Z)
| Traceback (e : exn).

Definition exit_code (s : status) : Z :=
  match s with
  | Exit code => code
  | Traceback _ => 1
  end.

(** ** The per-record pipeline (lines 40-123) and the script *)

Section Pipeline.

(** [json.loads].  A collected line starts with an opening brace, so what
    parses is a JSON object. *)
Variable json_loads : string -> parsed.

(** [str] of a float. *)
Variable float_str : Num.float -> string.

(** The plotting backend and the directory the script runs in. *)
Variable plt : backend.

Definition int_str (z : Z) : string := NilEmpty.string_of_int (Z.to_int z).
Definition nat_str (n : nat) : string := NilEmpty.string_of_uint (Nat.to_uint n).

(** [f"{c}"] *)
Definition py_str (c : cell) : string :=
  match c with
  | CInt z => int_str z
  | CFloat f => float_str f
  | CStr s => s
  end.

Definition newline : string := String Text.LF EmptyString.

(** The body of the [iterrows] loop (lines 69-98). *)
Definition draw_row (row : gmap string cell) : Plot unit :=
  tick_lower <- lift (row_get row "tickLower") ;;
  tick_upper <- lift (row_get row "tickUpper") ;;
  liquidity <- lift (row_get row "liquidity") ;;
  slug_name <- lift (row_get row "slugName") ;;
  width <- lift (cell_sub tick_upper tick_lower) ;;
  positive <- lift (cell_gt0 liquidity) ;;
  let height := if positive : bool then YLog liquidity else YInt 0 in
  emit (AddPatch {| rect_x := tick_lower; rect_width := width;
                    rect_height := height; rect_label := slug_name |}) ;;;
  let slug_label :=
    (py_str slug_name ++ newline
     ++ "[" ++ py_str tick_lower ++ ", " ++ py_str tick_upper ++ "]")%string in
  half <- lift (cell_div width (CInt 2)) ;;
  x <- lift (cell_add tick_lower half) ;;
  emit (AxText x (YPlus height Num.f0_1) slug_label).

Fixpoint draw_rows (rows : list (gmap string cell)) : Plot unit :=
  match rows with
  | [] => ret tt
  | row :: rows' => draw_row row ;;; draw_rows rows'
  end.

Definition title (timestamp : option cell) : string :=
  match timestamp with
  | Some ts => ("Liquidity Positions (Slugs) at Timestamp " ++ py_str ts)%string
  | None => "Liquidity Positions (Slugs)"
  end.

(** Lines 52-116: build the table and draw the figure.  The result is the
    [timestamp] the file is then named by. *)
Definition render (slugs : list slug_entry) : Plot (option cell) :=
  df <- lift (scale_liquidity (DataFrame slugs)) ;;
  timestamp <- lift (first_or_none df "timestamp") ;;
  current_tick <- lift (first_or_none df "currentTick") ;;
  emit Subplots ;;;
  max_liquidity <- lift (match getitem df "liquidity" with
                         | inr col => col_max col
                         | inl e => inl e
                         end) ;;
  max_tick <- lift (match getitem df "tickUpper" with
                    | inr col => col_max col
                    | inl e => inl e
                    end) ;;
  min_tick <- lift (match getitem df "tickLower" with
                    | inr col => col_min col
                    | inl e => inl e
                    end) ;;
  draw_rows (iterrows df) ;;;
  axvline current_tick ;;;
  lo <- lift (np_sub min_tick (CInt 50)) ;;
  hi <- lift (np_add max_tick (CInt 50)) ;;
  set_xlim lo hi ;;;
  positive <- lift (cell_gt0 max_liquidity) ;;
  set_ylim 0 (if positive : bool
              then YTimes (YLog max_liquidity) Num.f1_1 else YInt 1) ;;;
  emit (SetXlabel "Ticks") ;;;
  emit (SetYlabel "Log Liquidity") ;;;
  emit (SetTitle (title timestamp)) ;;;
  emit Legend ;;;
  emit Grid ;;;
  ret timestamp.

(** Lines 119-122: the name of the image. *)
Definition filename (i : nat) (timestamp : option cell) : string :=
  match timestamp with
  | Some ts => ("slug_plot_" ++ py_str ts ++ ".png")%string
  | None => ("slug_plot_" ++ nat_str i ++ ".png")%string
  end.

(** What one turn of the loop does with a collected line: it prints a
    diagnostic and goes on, or draws the figure and saves it under [name],
    or raises. *)
Inductive outcome : Type :=
| Skipped (diagnostic : string)
| Saved (name : string) (fig : list call)
| Raised (fig : list call) (e : exn).

Definition process_record (i : nat) (data : record) : outcome :=
  match rec_data data with
  | None | Some [] => Skipped "No slug data found in the JSON."
  | Some slugs =>
      match render slugs with
      | (fig, inr timestamp) =>
          match savefig_result plt (filename i timestamp) fig with
          | inr _ => Saved (filename i timestamp) fig
          | inl e => Raised fig e
          end
      | (fig, inl e) => Raised fig e
      end
  end.

(** Lines 41-45: only [JSONDecodeError] is caught. *)
Definition process_line (i : nat) (json_str : string) : outcome :=
  match json_loads json_str with
  | JSONDecodeError e => Skipped ("Error parsing JSON: " ++ e)%string
  | LoadsError e => Raised [] e
  | Parsed data => process_record i data
  end.

(** [for i, json_str in enumerate(json_lines)] and the final [print]. *)
Fixpoint run_records (i : nat) (json_lines : list string) (w : world)
  : world * status :=
  match json_lines with
  | [] => (print "Charts have been generated and saved." w, Exit 0)
  | json_str :: rest =>
      match process_line i json_str with
      | Skipped diagnostic => run_records (S i) rest (print diagnostic w)
      | Saved name fig => run_records (S i) rest (savefig plt name fig w)
      | Raised _ e => (w, Traceback e)
      end
  end.

(** The number of images the loop saves for these lines, the first of which
    has index [i], when none of them raises. *)
Fixpoint rendered (i : nat) (json_lines : list string) : nat :=
  match json_lines with
  | [] => 0
  | json_str :: rest =>
      match process_line i json_str with
      | Saved _ _ => S (rendered (S i) rest)
      | _ => rendered (S i) rest
      end
  end.

(** The script, from the lines of its input on. *)
Definition run_lines (lines : list string) (w : world) : world * status :=
  match logs_index lines with
  | None => (print "No logs found in the Forge test output." w, Exit 1)
  | Some idx =>
      match collect_json (skipn (S idx) lines) with
      | [] => (print "No JSON data found in the Forge test output." w, Exit 1)
      | json_lines => run_records 0 json_lines w
      end
  end.

Definition main (output : string) (w : world) : world * status :=
  run_lines (Text.splitlines output) w.

End Pipeline.

(** ** The legend (lines 112-114)

    [dict(zip(labels, handles))]: the pairs are entered from left to right; a
    label that is already a key keeps its place and takes the new handle. *)

Fixpoint dict_set {V} (k : string) (v : V) (d : list (string * V))
  : list (string * V) :=
  match d with
  | [] => [(k, v)]
  | (k', v') :: d' =>
      if String.eqb k k' then (k, v) :: d' else (k', v') :: dict_set k v d'
  end.

Definition dict_update {V} (d : list (string * V))
    (pairs : list (string * V)) : list (string * V) :=
  fold_left (fun d kv => dict_set (fst kv) (snd kv) d) pairs d.

Definition unique_labels {V} (labels : list string) (handles : list V)
  : list (string * V) :=
  dict_update [] (combine labels handles).

(** ** Readings of the specification, to compare the script with *)

(** The record-level metadata [k]: when the key occurs among the entries,
    the value the first entry has for it, as the column holds it (the
    missing value when the first entry lacks the key). *)
Definition metadata (k : string) (slugs : list slug_entry) : option cell :=
  match slugs with
  | e :: _ =>
      if has_column k slugs then Some (coerce (raw_column k slugs) (field k e))
      else None
  | [] => None
  end.

(** The scaled liquidity of an entry: its raw value divided by 10^18. *)
Definition scaled_liquidity (e : slug_entry) : Num.float :=
  Num.div (match liquidity e with
           | Some n => Num.to_float n
           | None => Num.nan
           end) Num.f1e18.

(** The height of a rectangle: the logarithm of a positive liquidity, and 0
    otherwise. *)
Definition height_of (liq : Num.float) : yexpr :=
  if Num.is_pos liq then YLog (CFloat liq) else YInt 0.

(** The upper limit of the y axis. *)
Definition ylim_top (max_liquidity : Num.float) : yexpr :=
  if Num.is_pos max_liquidity
  then YTimes (YLog (CFloat max_liquidity)) Num.f1_1 else YInt 1.

(** The heights of the rectangles of a figure, and the arguments [np.log]
    was applied to while it was drawn. *)
Definition rect_heights (fig : list call) : list yexpr :=
  flat_map (fun c => match c with
                     | AddPatch r => [rect_height r]
                     | _ => []
                     end) fig.

Definition call_log_args (c : call) : list cell :=
  match c with
  | AddPatch r => log_args (rect_height r)
  | AxText _ y _ => log_args y
  | SetYlim _ hi => log_args hi
  | _ => []
  end.

Definition mandatory : list string :=
  ["liquidity"; "tickLower"; "tickUpper"; "slugName"].

(** The mandatory columns in the order in which the script first reads them
    (lines 55, 65, 66 and 72), and the first of them that the table of a
    record lacks. *)
Definition reading_order : list string :=
  ["liquidity"; "tickUpper"; "tickLower"; "slugName"].

Definition first_missing (slugs : list slug_entry) : option string :=
  find (fun k => negb (has_column k slugs)) reading_order.

(** The diagnostics of the lines the loop skips. *)
Definition is_diagnostic (d : string) : Prop :=
  d = "No slug data found in the JSON." \/
  exists e, d = "Error parsing JSON: " +:+ e.

(** ** What a pattern matches

    [matches r s rest]: the pattern [r] matches the word [s] when [rest] is
    what follows it in the input.  What follows matters to [$] only. *)

Inductive matches : Re.regex -> string -> string -> Prop :=
| M_eps (rest : string) : matches Re.Eps EmptyString rest
| M_end_here : matches Re.EndOfString EmptyString EmptyString
| M_end_newline :
    matches Re.EndOfString EmptyString (String Text.LF EmptyString)
| M_class (p : ascii -> bool) (c : ascii) (rest : string) :
    p c = true -> matches (Re.Class p) (String c EmptyString) rest
| M_cat (r1 r2 : Re.regex) (s1 s2 rest : string) :
    matches r1 s1 (s2 +:+ rest) -> matches r2 s2 rest ->
    matches (Re.Cat r1 r2) (s1 +:+ s2) rest
| M_alt_l (r1 r2 : Re.regex) (s rest : string) :
    matches r1 s rest -> matches (Re.Alt r1 r2) s rest
| M_alt_r (r1 r2 : Re.regex) (s rest : string) :
    matches r2 s rest -> matches (Re.Alt r1 r2) s rest
| M_star_nil (r : Re.regex) (rest : string) :
    matches (Re.Star r) EmptyString rest
| M_star_cons (r : Re.regex) (s1 s2 rest : string) :
    matches r s1 (s2 +:+ rest) -> matches (Re.Star r) s2 rest ->
    matches (Re.Star r) (s1 +:+ s2) rest.

(** Every character of [s] satisfies [p]. *)
Fixpoint all_chars (p : ascii -> bool) (s : string) : bool :=
  match s with
  | EmptyString => true
  | String c s' => p c && all_chars p s'
  end.

Definition not_newline (c : ascii) : bool := negb (Ascii.eqb c Text.LF).

(** The text whose lines are [ls], each ended by [eol]. *)
Fixpoint join_lines (eol : string) (ls : list string) : string :=
  match ls with
  | [] => EmptyString
  | l :: ls' => l +:+ eol +:+ join_lines eol ls'
  end.

Definition no_linebreak (c : ascii) : bool := negb (Text.is_linebreak c).

(** *** Complete records

    An entry is complete when it carries the four keys the renderer reads. *)
Definition complete (e : slug_entry) : bool :=
  present (tickLower e) && present (tickUpper e) && present (liquidity e)
  && present (slugName e).

Definition lower (e : slug_entry) : Z := default 0%Z (tickLower e).
Definition upper (e : slug_entry) : Z := default 0%Z (tickUpper e).
Definition name_of (e : slug_entry) : string := default EmptyString (slugName e).

(** The raw liquidity of an entry as a float. *)
Definition raw_liquidity (e : slug_entry) : Num.float :=
  match liquidity e with
  | Some n => Num.to_float n
  | None => Num.nan
  end.

(** What lines 69-98 draw for a complete entry: the rectangle over
    [[tickLower, tickUpper]] and its label above the middle of it. *)
Definition entry_calls (float_str : Num.float -> string) (e : slug_entry)
  : list call :=
  let height := height_of (scaled_liquidity e) in
  [AddPatch {| rect_x := CInt (lower e);
               rect_width := CInt (upper e - lower e);
               rect_height := height;
               rect_label := CStr (name_of e) |};
   AxText (CFloat (Num.add (Num.of_Z (lower e))
                     (Num.div (Num.of_Z (upper e - lower e)) (Num.of_Z 2))))
     (YPlus height Num.f0_1)
     (name_of e +:+ newline +:+ "[" +:+ int_str (lower e) +:+ ", "
      +:+ int_str (upper e) +:+ "]")].

(** The smallest [tickLower] and the largest [tickUpper] of a record. *)
Definition min_lower (slugs : list slug_entry) : Z :=
  match slugs with
  | e :: es => fold_left Z.min (map lower es) (lower e)
  | [] => 0
  end.

Definition max_upper (slugs : list slug_entry) : Z :=
  match slugs with
  | e :: es => fold_left Z.max (map upper es) (upper e)
  | [] => 0
  end.

(** The figure of a complete record. *)
Definition figure (float_str : Num.float -> string)
    (slugs : list slug_entry) : list call :=
  Subplots :: flat_map (entry_calls float_str) slugs ++
  [Axvline (metadata "currentTick" slugs);
   SetXlim (CInt (Num.wrap64 (min_lower slugs - 50)))
     (CInt (Num.wrap64 (max_upper slugs + 50)));
   SetYlim 0 (ylim_top (Num.nanmax (map scaled_liquidity slugs)));
   SetXlabel "Ticks"; SetYlabel "Log Liquidity";
   SetTitle (title float_str (metadata "timestamp" slugs)); Legend; Grid].

(** ** Sample inputs *)

Module Samples.

Definition q (s : string) : string :=
  (String (ascii_of_N 34) s ++ String (ascii_of_N 34) EmptyString)%string.

Definition kv (k v : string) : string := (q k ++ ": " ++ v)%string.

(** A complete slug entry, and its JSON text. *)
Definition e_lower : slug_entry :=
  {| tickLower := Some 100%Z; tickUpper := Some 200%Z;
     liquidity := Some (NInt 2000000000000000000); slugName := Some "lower";
     timestamp := Some (SNum (NInt 12345)); currentTick := Some (NInt 150) |}.

Definition t_lower : string :=
  ("{" ++ kv "tickLower" "100" ++ ", " ++ kv "tickUpper" "200" ++ ", "
   ++ kv "liquidity" "2000000000000000000" ++ ", "
   ++ kv "slugName" (q "lower") ++ ", " ++ kv "timestamp" "12345" ++ ", "
   ++ kv "currentTick" "150" ++ "}")%string.

(** A complete entry with no liquidity in it. *)
Definition e_upper : slug_entry :=
  {| tickLower := Some 200%Z; tickUpper := Some 300%Z;
     liquidity := Some (NInt 0); slugName := Some "upper";
     timestamp := Some (SNum (NInt 12345)); currentTick := Some (NInt 150) |}.

Definition t_upper : string :=
  ("{" ++ kv "tickLower" "200" ++ ", " ++ kv "tickUpper" "300" ++ ", "
   ++ kv "liquidity" "0" ++ ", "
   ++ kv "slugName" (q "upper") ++ ", " ++ kv "timestamp" "12345" ++ ", "
   ++ kv "currentTick" "150" ++ "}")%string.

(** The same entry without its [liquidity] key. *)
Definition e_no_liquidity : slug_entry :=
  {| tickLower := Some 200%Z; tickUpper := Some 300%Z;
     liquidity := None; slugName := Some "upper";
     timestamp := Some (SNum (NInt 12345)); currentTick := Some (NInt 150) |}.

Definition t_no_liquidity : string :=
  ("{" ++ kv "tickLower" "200" ++ ", " ++ kv "tickUpper" "300" ++ ", "
   ++ kv "slugName" (q "upper") ++ ", " ++ kv "timestamp" "12345" ++ ", "
   ++ kv "currentTick" "150" ++ "}")%string.

(** An entry with the four mandatory fields and a current tick, but no
    timestamp. *)
Definition e_untimed : slug_entry :=
  {| tickLower := Some 100%Z; tickUpper := Some 200%Z;
     liquidity := Some (NInt 2000000000000000000); slugName := Some "lower";
     timestamp := None; currentTick := Some (NInt 150) |}.

Definition t_untimed : string :=
  ("{" ++ kv "tickLower" "100" ++ ", " ++ kv "tickUpper" "200" ++ ", "
   ++ kv "liquidity" "2000000000000000000" ++ ", "
   ++ kv "slugName" (q "lower") ++ ", " ++ kv "currentTick" "150" ++ "}")%string.

(** An entry with the four mandatory fields only. *)
Definition e_plain : slug_entry :=
  {| tickLower := Some 100%Z; tickUpper := Some 200%Z;
     liquidity := Some (NInt 2000000000000000000); slugName := Some "lower";
     timestamp := None; currentTick := None |}.

Definition t_plain : string :=
  ("{" ++ kv "tickLower" "100" ++ ", " ++ kv "tickUpper" "200" ++ ", "
   ++ kv "liquidity" "2000000000000000000" ++ ", "
   ++ kv "slugName" (q "lower") ++ "}")%string.

Definition with_data (entries : list slug_entry) : record :=
  {| rec_data := Some entries; rec_timestamp := None;
     rec_currentTick := None |}.

Definition data_line (entries : list string) : string :=
  ("{" ++ kv "data" ("[" ++ String.concat ", " entries ++ "]") ++ "}")%string.

(** Record lines: one complete slug; two complete slugs; a slug and one
    that lacks [liquidity]; one slug without timestamp; one slug without
    timestamp and current tick; one slug that lacks [liquidity]; an empty
    [data] list; no [data] key but the metadata at the top level; and a line
    that is no JSON.  [loads] takes every other line for malformed, except
    the one with the long integer further down. *)
Definition l_one : string := data_line [t_lower].
Definition l_two : string := data_line [t_lower; t_upper].
Definition l_partial : string := data_line [t_lower; t_no_liquidity].
Definition l_untimed : string := data_line [t_untimed].
Definition l_plain : string := data_line [t_plain].
Definition l_bare : string := data_line [t_no_liquidity].
Definition l_empty : string := data_line [].
Definition l_top_only : string :=
  ("{" ++ kv "timestamp" "12345" ++ ", " ++ kv "currentTick" "150" ++ "}")%string.
Definition l_broken : string := "{oops}".

(** A complete entry with a later timestamp, and the record line of it. *)
Definition e_later : slug_entry :=
  {| tickLower := Some 100%Z; tickUpper := Some 200%Z;
     liquidity := Some (NInt 2000000000000000000); slugName := Some "lower";
     timestamp := Some (SNum (NInt 12346)); currentTick := Some (NInt 150) |}.

Definition t_later : string :=
  ("{" ++ kv "tickLower" "100" ++ ", " ++ kv "tickUpper" "200" ++ ", "
   ++ kv "liquidity" "2000000000000000000" ++ ", "
   ++ kv "slugName" (q "lower") ++ ", " ++ kv "timestamp" "12346" ++ ", "
   ++ kv "currentTick" "150" ++ "}")%string.

Definition l_later : string := data_line [t_later].

(** A JSON object with an integer of 4301 digits. *)
Fixpoint ones (n : nat) : string :=
  match n with
  | O => EmptyString
  | S n' => String "1" (ones n')
  end.

Definition l_huge : string := ("{" ++ kv "data" (ones 4301) ++ "}")%string.

(** [json.loads] on the sample lines. *)
Definition loads (s : string) : parsed :=
  if String.eqb s l_one then Parsed (with_data [e_lower])
  else if String.eqb s l_two then Parsed (with_data [e_lower; e_upper])
  else if String.eqb s l_partial then
    Parsed (with_data [e_lower; e_no_liquidity])
  else if String.eqb s l_untimed then Parsed (with_data [e_untimed])
  else if String.eqb s l_plain then Parsed (with_data [e_plain])
  else if String.eqb s l_bare then Parsed (with_data [e_no_liquidity])
  else if String.eqb s l_later then Parsed (with_data [e_later])
  else if String.eqb s l_empty then Parsed (with_data [])
  else if String.eqb s l_top_only then
    Parsed {| rec_data := None; rec_timestamp := Some (SNum (NInt 12345));
              rec_currentTick := Some (NInt 150) |}
  else if String.eqb s l_huge then LoadsError ValueError
  else
    JSONDecodeError
      "Expecting property name enclosed in double quotes: line 1 column 2 (char 1)".

(** [str] of the floats the samples format: only NaN occurs. *)
Definition float_str (f : Num.float) : string :=
  match f with
  | S754_nan => "nan"
  | S754_infinity false => "inf"
  | S754_infinity true => "-inf"
  | _ => "0.0"
  end.

(** A backend that draws every figure, in a directory without links where
    every name can be written: a name denotes the file of that name. *)
Definition plt : backend :=
  {| draw_error := fun _ => None; open_wb := fun name => inr name |}.

Definition empty_world : world := {| stdout := []; files := ∅ |}.

(** Entries whose timestamp is a string with slashes in it, and a backend
    for a directory in which [slug_plot_d] is a directory and no other
    directory exists: the path [slug_plot_d/../notes.png] denotes the file
    [notes.png], and every other path with a slash cannot be opened. *)
Definition e_path : slug_entry :=
  {| tickLower := Some 100%Z; tickUpper := Some 200%Z;
     liquidity := Some (NInt 2000000000000000000); slugName := Some "lower";
     timestamp := Some (SStr "d/../notes"); currentTick := Some (NInt 150) |}.

Definition e_nodir : slug_entry :=
  {| tickLower := Some 100%Z; tickUpper := Some 200%Z;
     liquidity := Some (NInt 2000000000000000000); slugName := Some "lower";
     timestamp := Some (SStr "no/such/dir"); currentTick := Some (NInt 150) |}.

Definition plt_dirs : backend :=
  {| draw_error := fun _ => None;
     open_wb := fun name =>
       if String.eqb name "slug_plot_d/../notes.png" then inr "notes.png"
       else if Text.contains "/" name then inl OSError
       else inr name |}.

(** A complete entry whose [tickUpper] is the largest 64-bit integer. *)
Definition e_edge : slug_entry :=
  {| tickLower := Some 100%Z; tickUpper := Some (2 ^ 63 - 1)%Z;
     liquidity := Some (NInt 2000000000000000000); slugName := Some "lower";
     timestamp := Some (SNum (NInt 12345)); currentTick := Some (NInt 150) |}.

End Samples.

(** * Properties *)

(** ** The text functions on small inputs *)

Example splitlines_ex :
  Text.splitlines
    ("a" +:+ String Text.CR (String Text.LF "b")
     +:+ String Text.LF (String Text.LF ("c" +:+ String Text.LF EmptyString)))
  = ["a"; "b"; EmptyString; "c"].
Proof. reflexivity. Qed.

Example strip_ex : Text.strip "  { x }  " = "{ x }".
Proof. reflexivity. Qed.

Example is_json_line_ex :
  map is_json_line ["  {a: 1}  "; "{}"; "{}}"; "x {}"; "{} x"; "{"; "stop"]
  = [true; true; true; false; false; false; false].
Proof. vm_compute. reflexivity. Qed.

Example sample_lines_shape :
  forallb is_json_line
    [Samples.l_one; Samples.l_two; Samples.l_partial; Samples.l_untimed;
     Samples.l_plain; Samples.l_bare; Samples.l_empty; Samples.l_top_only;
     Samples.l_broken] = true.
Proof. vm_compute. reflexivity. Qed.

(** ** The log extractor *)

Lemma find_logs_from_skip (pre : list string) (idx : nat) (rest : list string) :
  Forall (fun l => Text.contains "Logs:" l = false) pre ->
  find_logs_from idx (pre ++ rest) = find_logs_from (length pre + idx) rest.
Proof.
  intros Hpre. revert idx.
  induction Hpre as [|l pre Hl _ IH]; intros idx; simpl.
  - reflexivity.
  - rewrite Hl, IH. f_equal. lia.
Qed.

Lemma logs_index_first (pre : list string) (marker : string) (rest : list string) :
  Forall (fun l => Text.contains "Logs:" l = false) pre ->
  Text.contains "Logs:" marker = true ->
  logs_index (pre ++ marker :: rest) = Some (length pre).
Proof.
  intros Hpre Hm. unfold logs_index.
  rewrite find_logs_from_skip by assumption.
  simpl. rewrite Hm. f_equal. lia.
Qed.

Lemma logs_index_none (lines : list string) :
  logs_index lines = None <->
  Forall (fun l => Text.contains "Logs:" l = false) lines.
Proof.
  unfold logs_index. generalize 0%nat.
  induction lines as [|l lines IH]; intros idx; simpl.
  - split; auto.
  - destruct (Text.contains "Logs:" l) eqn:Hl.
    + split; [discriminate|]. intros H. inversion H; congruence.
    + rewrite IH. split; [auto | intros H; inversion H; auto].
Qed.

Lemma skipn_past_marker (pre : list string) (marker : string)
    (rest : list string) :
  skipn (S (length pre)) (pre ++ marker :: rest) = rest.
Proof. induction pre as [|l pre IH]; simpl; auto. Qed.

Lemma collect_json_prefix (js : list string) (rest : list string) :
  Forall (fun l => is_json_line l = true) js ->
  (rest = [] \/ exists bad rest', rest = bad :: rest' /\ is_json_line bad = false) ->
  collect_json (js ++ rest) = map Text.strip js.
Proof.
  intros Hjs Hrest.
  induction Hjs as [|l js Hl _ IH]; simpl.
  - destruct Hrest as [-> | (bad & rest' & -> & Hbad)]; simpl; auto.
    now rewrite Hbad.
  - now rewrite Hl, IH.
Qed.

(** C3. After the first line containing [Logs:], the collected block is the
    maximal prefix of consecutive lines matching the pattern, each stripped:
    with N matching lines, then a line that does not match, then any further
    lines (matching or not), exactly the N lines are collected; the same N
    lines are collected when the input ends after them. *)
Theorem extraction_boundary
    (pre : list string) (marker : string) (js : list string)
    (bad : string) (more : list string) :
  Forall (fun l => Text.contains "Logs:" l = false) pre ->
  Text.contains "Logs:" marker = true ->
  Forall (fun l => is_json_line l = true) js ->
  is_json_line bad = false ->
  Forall (fun l => is_json_line l = true) more ->
  let lines := pre ++ marker :: js ++ bad :: more in
  logs_index lines = Some (length pre) /\
  collect_json (skipn (S (length pre)) lines) = map Text.strip js /\
  length (collect_json (skipn (S (length pre)) lines)) = length js /\
  collect_json (skipn (S (length pre)) (pre ++ marker :: js))
  = map Text.strip js.
Proof.
  intros Hpre Hm Hjs Hbad _ lines. subst lines.
  split; [now apply logs_index_first|].
  rewrite !skipn_past_marker.
  assert (E : collect_json (js ++ bad :: more) = map Text.strip js).
  { apply collect_json_prefix; eauto. }
  rewrite E, length_map. repeat split.
  rewrite <- (app_nil_r js) at 1. apply collect_json_prefix; auto.
Qed.

(** ** Plot computations that succeed *)

Lemma bind_inr {A B} (m : Plot A) (f : A -> Plot B) (t : list call) (b : B) :
  bind m f = (t, inr b) ->
  exists t1 a t2, m = (t1, inr a) /\ f a = (t2, inr b) /\ t = t1 ++ t2.
Proof.
  unfold bind. destruct m as [t1 [e|a]]; [discriminate|].
  destruct (f a) as [t2 r] eqn:Ef. intros H. injection H as <- ->.
  now exists t1, a, t2.
Qed.

Lemma bind_lift_inr {A B} (r : exn + A) (f : A -> Plot B)
    (t : list call) (b : B) :
  bind (lift r) f = (t, inr b) -> exists a, r = inr a /\ f a = (t, inr b).
Proof.
  intros H. apply bind_inr in H as (t1 & a & t2 & Hm & Hf & ->).
  unfold lift in Hm. injection Hm as <- ->. now exists a.
Qed.

Lemma bind_emit_inr {B} (c : call) (f : unit -> Plot B)
    (t : list call) (b : B) :
  bind (emit c) f = (t, inr b) -> exists t2, f tt = (t2, inr b) /\ t = c :: t2.
Proof.
  intros H. apply bind_inr in H as (t1 & a & t2 & Hm & Hf & ->).
  unfold emit in Hm. injection Hm as <-. destruct a. now exists t2.
Qed.

Lemma bind_inl {A B} (m : Plot A) (f : A -> Plot B) (t : list call) (e : exn) :
  m = (t, inl e) -> bind m f = (t, inl e).
Proof. now intros ->. Qed.

Lemma bind_lift_ok {A B} (a : A) (f : A -> Plot B) :
  bind (lift (inr a)) f = f a.
Proof. unfold bind, lift. now destruct (f a). Qed.

Lemma bind_emit_ok {B} (c : call) (f : unit -> Plot B) (t : list call)
    (r : exn + B) :
  f tt = (t, r) -> bind (emit c) f = (c :: t, r).
Proof. unfold bind, emit. now intros ->. Qed.

Lemma bind_app_ok {A B} (m : Plot A) (f : A -> Plot B) (t1 t2 : list call)
    (a : A) (r : exn + B) :
  m = (t1, inr a) -> f a = (t2, r) -> bind m f = (t1 ++ t2, r).
Proof. unfold bind. now intros -> ->. Qed.

(** ** The table *)

Lemma DataFrame_lookup (slugs : list slug_entry) (k : string) :
  In k keys ->
  columns (DataFrame slugs) !! k
  = if has_column k slugs then Some (infer_column (raw_column k slugs))
    else None.
Proof.
  unfold DataFrame, keys. simpl. unfold add_column.
  intros Hk.
  repeat (destruct Hk as [<- | Hk];
          [ repeat match goal with
              | |- context [if has_column ?k' ?s then _ else _] =>
                  destruct (has_column k' s)
              end; simplify_map_eq; reflexivity | ]).
  destruct Hk.
Qed.

Lemma infer_column_length (raw : list (option scalar)) :
  length (infer_column raw) = length raw.
Proof. unfold infer_column. apply length_map. Qed.

Lemma traverse_length {A B} (f : A -> exn + B) (l : list A) (l' : list B) :
  traverse f l = inr l' -> length l' = length l.
Proof.
  revert l'. induction l as [|a l IH]; simpl; intros l' H.
  - now injection H as <-.
  - destruct (f a); [discriminate|].
    destruct (traverse f l); [discriminate|].
    injection H as <-. simpl. f_equal. now apply IH.
Qed.

Lemma traverse_lookup {A B} (f : A -> exn + B) (l : list A) (l' : list B)
    (i : nat) (a : A) :
  traverse f l = inr l' -> l !! i = Some a ->
  exists b, l' !! i = Some b /\ f a = inr b.
Proof.
  revert l' i. induction l as [|x l IH]; simpl; intros l' i H Hi.
  - discriminate.
  - destruct (f x) as [|b] eqn:Ex; [discriminate|].
    destruct (traverse f l) as [|bs]; [discriminate|].
    injection H as <-. destruct i as [|i]; simpl in *.
    + injection Hi as <-. eauto.
    + eapply IH; eauto.
Qed.

(** The table after line 55. *)
Lemma scale_liquidity_inv (slugs : list slug_entry) (df : frame) :
  scale_liquidity (DataFrame slugs) = inr df ->
  exists scaled,
    has_column "liquidity" slugs = true /\
    traverse scale_cell (infer_column (raw_column "liquidity" slugs))
    = inr scaled /\
    n_rows df = length slugs /\
    columns df = <["liquidity" := scaled]> (columns (DataFrame slugs)).
Proof.
  unfold scale_liquidity, getitem.
  rewrite DataFrame_lookup by (unfold keys; simpl; tauto).
  destruct (has_column "liquidity" slugs); [|discriminate].
  destruct (traverse scale_cell _) as [|scaled] eqn:E; [discriminate|].
  intros H. injection H as <-. exists scaled. simpl. auto.
Qed.

Lemma scaled_lookup (slugs : list slug_entry) (df : frame)
    (scaled : list cell) (k : string) :
  columns df = <["liquidity" := scaled]> (columns (DataFrame slugs)) ->
  In k keys -> k <> "liquidity" ->
  columns df !! k
  = if has_column k slugs then Some (infer_column (raw_column k slugs))
    else None.
Proof.
  intros -> Hk Hne. rewrite lookup_insert_ne by congruence.
  now apply DataFrame_lookup.
Qed.

(** ** Rendering *)

Section Rendering.

Variable float_str : Num.float -> string.

Lemma row_get_inr (row : gmap string cell) (k : string) (c : cell) :
  row_get row k = inr c -> row !! k = Some c.
Proof. unfold row_get. destruct (row !! k); congruence. Qed.

Lemma draw_row_ok_inv (row : gmap string cell) (t : list call) (u : unit) :
  draw_row float_str row = (t, inr u) ->
  exists tick_lower tick_upper liq name width x (positive : bool),
    row !! "tickLower" = Some tick_lower /\
    row !! "tickUpper" = Some tick_upper /\
    row !! "liquidity" = Some liq /\
    row !! "slugName" = Some name /\
    cell_gt0 liq = inr positive /\
    t = [AddPatch {| rect_x := tick_lower; rect_width := width;
                     rect_height := if positive then YLog liq else YInt 0;
                     rect_label := name |};
         AxText x
           (YPlus (if positive then YLog liq else YInt 0) Num.f0_1)
           (py_str float_str name +:+ newline +:+ "[" +:+
            py_str float_str tick_lower +:+ ", " +:+
            py_str float_str tick_upper +:+ "]")].
Proof.
  unfold draw_row. intros H.
  apply bind_lift_inr in H as (tick_lower & Hl & H).
  apply bind_lift_inr in H as (tick_upper & Hu & H).
  apply bind_lift_inr in H as (liq & Hliq & H).
  apply bind_lift_inr in H as (name & Hn & H).
  apply bind_lift_inr in H as (width & Hw & H).
  apply bind_lift_inr in H as (positive & Hp & H).
  apply bind_emit_inr in H as (t2 & H & ->).
  apply bind_lift_inr in H as (half & Hh & H).
  apply bind_lift_inr in H as (x & Hx & H).
  unfold emit in H. injection H as <- _.
  exists tick_lower, tick_upper, liq, name, width, x, positive.
  repeat split; auto using row_get_inr.
Qed.

Lemma render_ok_inv (slugs : list slug_entry) (fig : list call)
    (ts : option cell) :
  render float_str slugs = (fig, inr ts) ->
  exists df scaled max_liquidity max_tick min_tick rows_fig cur lo hi
         (positive : bool),
    scale_liquidity (DataFrame slugs) = inr df /\
    first_or_none df "timestamp" = inr ts /\
    first_or_none df "currentTick" = inr (Some cur) /\
    getitem df "liquidity" = inr scaled /\
    col_max scaled = inr max_liquidity /\
    (exists col, getitem df "tickUpper" = inr col /\ col_max col = inr max_tick) /\
    (exists col, getitem df "tickLower" = inr col /\ col_min col = inr min_tick) /\
    draw_rows float_str (iterrows df) = (rows_fig, inr tt) /\
    cell_gt0 max_liquidity = inr positive /\
    finite_y (if positive then YTimes (YLog max_liquidity) Num.f1_1
              else YInt 1) = true /\
    fig = Subplots :: rows_fig ++
          [Axvline (Some cur); SetXlim lo hi;
           SetYlim 0 (if positive then YTimes (YLog max_liquidity) Num.f1_1
                      else YInt 1);
           SetXlabel "Ticks"; SetYlabel "Log Liquidity";
           SetTitle (title float_str ts); Legend; Grid].
Proof.
  unfold render. intros H.
  apply bind_lift_inr in H as (df & Hdf & H).
  apply bind_lift_inr in H as (ts0 & Hts & H).
  apply bind_lift_inr in H as (cur0 & Hcur & H).
  apply bind_emit_inr in H as (t1 & H & ->).
  apply bind_lift_inr in H as (max_liquidity & Hml & H).
  apply bind_lift_inr in H as (max_tick & Hmt & H).
  apply bind_lift_inr in H as (min_tick & Hnt & H).
  apply bind_inr in H as (rows_fig & [] & t2 & Hrows & H & ->).
  apply bind_inr in H as (ta & [] & t3 & Hax & H & ->).
  apply bind_lift_inr in H as (lo & Hlo & H).
  apply bind_lift_inr in H as (hi & Hhi & H).
  apply bind_inr in H as (tx & [] & t4 & Hxl & H & ->).
  apply bind_lift_inr in H as (positive & Hpos & H).
  apply bind_inr in H as (ty & [] & t5 & Hyl & H & ->).
  apply bind_emit_inr in H as (t6 & H & ->).
  apply bind_emit_inr in H as (t7 & H & ->).
  apply bind_emit_inr in H as (t8 & H & ->).
  apply bind_emit_inr in H as (t9 & H & ->).
  apply bind_emit_inr in H as (t10 & H & ->).
  unfold ret in H. injection H as <- <-.
  destruct cur0 as [cur|]; [|discriminate].
  unfold axvline, emit in Hax. injection Hax as <-.
  unfold set_xlim in Hxl.
  destruct (finite_cell lo && finite_cell hi); [|discriminate].
  unfold emit in Hxl. injection Hxl as <-.
  unfold set_ylim in Hyl.
  destruct (finite_y _) eqn:Hfin; [|discriminate].
  unfold emit in Hyl. injection Hyl as <-.
  destruct (getitem df "liquidity") as [|scaled] eqn:Hgl; [discriminate|].
  exists df, scaled, max_liquidity, max_tick, min_tick, rows_fig, cur, lo, hi,
    positive.
  repeat split; auto.
  - destruct (getitem df "tickUpper") as [|col]; [discriminate|]. eauto.
  - destruct (getitem df "tickLower") as [|col]; [discriminate|]. eauto.
Qed.

End Rendering.

(** ** The liquidity column and the heights drawn from it *)

Lemma coerce_cases (raw : list (option scalar)) :
  coerce raw = object_cell \/ coerce raw = float_cell.
Proof.
  unfold coerce. destruct (existsb is_str raw); auto.
  destruct (forallb is_int raw); auto.
Qed.

Lemma scale_coerced (conv : option scalar -> cell) (e : slug_entry) (c : cell) :
  conv = object_cell \/ conv = float_cell ->
  scale_cell (conv (field "liquidity" e)) = inr c ->
  c = CFloat (scaled_liquidity e).
Proof.
  unfold scaled_liquidity.
  change (field "liquidity" e) with (SNum <$> liquidity e).
  intros [-> | ->]; destruct (liquidity e) as [[z|f]|]; simpl;
    try destruct (Num.is_inf (Num.of_Z z)); congruence.
Qed.

Lemma traverse_map_eq {A B C} (f : B -> exn + C) (g : A -> B) (h : A -> C)
    (l : list A) (l' : list C) :
  (forall a c, f (g a) = inr c -> c = h a) ->
  traverse f (map g l) = inr l' -> l' = map h l.
Proof.
  intros Hfg. revert l'. induction l as [|a l IH]; simpl; intros l' H.
  - now injection H as <-.
  - destruct (f (g a)) as [|c] eqn:Ec; [discriminate|].
    destruct (traverse f (map g l)) as [|cs]; [discriminate|].
    injection H as <-. f_equal; auto.
Qed.

Lemma liquidity_cells (slugs : list slug_entry) (scaled : list cell) :
  traverse scale_cell (infer_column (raw_column "liquidity" slugs))
  = inr scaled ->
  scaled = map (fun e => CFloat (scaled_liquidity e)) slugs.
Proof.
  unfold infer_column, raw_column. rewrite map_map.
  apply traverse_map_eq. intros e c.
  apply scale_coerced, coerce_cases.
Qed.

Lemma iterrows_lookup (df : frame) (i : nat) (row : gmap string cell)
    (k : string) :
  iterrows df !! i = Some row ->
  row !! k = columns df !! k ≫= (fun col : list cell => col !! i).
Proof.
  unfold iterrows. rewrite list_lookup_fmap.
  destruct (seq 0 (n_rows df) !! i) as [j|] eqn:Hj; [|discriminate].
  apply lookup_seq in Hj as [-> _]. simpl. intros [= <-].
  apply lookup_omap.
Qed.

Lemma iterrows_length (df : frame) : length (iterrows df) = n_rows df.
Proof. unfold iterrows. now rewrite length_map, length_seq. Qed.

Lemma rect_heights_app (t1 t2 : list call) :
  rect_heights (t1 ++ t2) = rect_heights t1 ++ rect_heights t2.
Proof. unfold rect_heights. apply flat_map_app. Qed.

Section Heights.

Variable float_str : Num.float -> string.

Lemma draw_rows_ok_inv (rows : list (gmap string cell)) (t : list call) :
  draw_rows float_str rows = (t, inr tt) ->
  Forall2 (fun row h => exists liq (positive : bool),
             row !! "liquidity" = Some liq /\
             cell_gt0 liq = inr positive /\
             h = if positive then YLog liq else YInt 0)
    rows (rect_heights t) /\
  Forall (fun c => cell_gt0 c = inr true) (flat_map call_log_args t) /\
  Forall (fun row : gmap string cell =>
            forall k, In k mandatory -> is_Some (row !! k)) rows.
Proof.
  revert t. induction rows as [|row rows IH]; simpl; intros t H.
  - unfold ret in H. injection H as <-. simpl. auto.
  - apply bind_inr in H as (t1 & [] & t2 & Hrow & Hrows & ->).
    apply draw_row_ok_inv in Hrow
      as (lo & up & liq & name & width & x & positive
          & Hlo & Hup & Hliq & Hname & Hpos & ->).
    destruct (IH _ Hrows) as (IH1 & IH2 & IH3).
    simpl. repeat split.
    + constructor; eauto.
    + destruct positive; simpl; auto.
    + constructor; auto. unfold mandatory. simpl.
      intros k [<-|[<-|[<-|[<-|[]]]]]; eauto.
Qed.

Lemma render_heights (slugs : list slug_entry) (df : frame)
    (rows_fig : list call) :
  scale_liquidity (DataFrame slugs) = inr df ->
  draw_rows float_str (iterrows df) = (rows_fig, inr tt) ->
  rect_heights rows_fig = map (fun e => height_of (scaled_liquidity e)) slugs.
Proof.
  intros Hdf Hrows.
  apply scale_liquidity_inv in Hdf as (scaled & _ & Hsc & Hn & Hcols).
  apply liquidity_cells in Hsc. subst scaled.
  apply draw_rows_ok_inv in Hrows as (Hh & _ & _).
  apply Forall2_same_length_lookup in Hh as [Hlen Hh].
  rewrite iterrows_length, Hn in Hlen.
  apply list_eq_same_length with (n := length slugs);
    [now rewrite length_map | now rewrite <- Hlen |].
  intros i h h' Hi Hh1 Hh2.
  rewrite list_lookup_fmap in Hh2.
  destruct (slugs !! i) as [e|] eqn:He; [|discriminate].
  simpl in Hh2. injection Hh2 as <-.
  destruct (iterrows df !! i) as [row|] eqn:Hrow.
  2:{ apply lookup_ge_None in Hrow. rewrite iterrows_length, Hn in Hrow. lia. }
  destruct (Hh i row h Hrow Hh1) as (liq & positive & Hliq & Hpos & ->).
  rewrite (iterrows_lookup _ _ _ _ Hrow), Hcols, lookup_insert_eq in Hliq.
  simpl in Hliq. rewrite list_lookup_fmap, He in Hliq. simpl in Hliq.
  injection Hliq as <-. simpl in Hpos. injection Hpos as <-.
  reflexivity.
Qed.

End Heights.

Lemma traverse_as_float (fl : list Num.float) :
  traverse as_float (map CFloat fl) = inr fl.
Proof. induction fl as [|f fl IH]; simpl; [|rewrite IH]; reflexivity. Qed.

Lemma col_max_floats (fl : list Num.float) :
  col_max (map CFloat fl) = inr (CFloat (Num.nanmax fl)).
Proof.
  unfold col_max. rewrite traverse_as_float.
  destruct fl; reflexivity.
Qed.

Lemma is_nonpos_not_pos (f : Num.float) :
  Num.is_nonpos f = true -> Num.is_pos f = false.
Proof. destruct f as [s|s| |s m e]; try destruct s; cbv; congruence. Qed.

Lemma has_column_nonempty (k : string) (slugs : list slug_entry) :
  has_column k slugs = true -> slugs <> [].
Proof. destruct slugs; [discriminate | congruence]. Qed.

Lemma first_or_none_metadata (slugs : list slug_entry) (df : frame)
    (k : string) (m : option cell) :
  scale_liquidity (DataFrame slugs) = inr df ->
  In k keys -> k <> "liquidity" ->
  first_or_none df k = inr m -> m = metadata k slugs.
Proof.
  intros Hdf Hk Hne.
  apply scale_liquidity_inv in Hdf as (scaled & _ & _ & _ & Hcols).
  unfold first_or_none, metadata.
  rewrite (scaled_lookup _ _ _ _ Hcols Hk Hne).
  destruct slugs as [|e es].
  - simpl. congruence.
  - destruct (has_column k (e :: es)); simpl; congruence.
Qed.

Section RenderedRecords.

Variable float_str : Num.float -> string.

(** A record is drawn only when its table has the four columns the
    renderer reads and the [currentTick] column. *)
Lemma render_ok_columns (slugs : list slug_entry) (fig : list call)
    (ts : option cell) (k : string) :
  render float_str slugs = (fig, inr ts) ->
  In k ("currentTick" :: mandatory) -> has_column k slugs = true.
Proof.
  intros H Hk.
  apply render_ok_inv in H
    as (df & scaled & ml & mt & nt & rows_fig & cur & lo & hi & pos
        & Hdf & Hts & Hcur & Hgl & Hml & (cu & Hgu & _) & (cl & Hgd & _)
        & Hrows & _).
  pose proof Hdf as Hdf'.
  apply scale_liquidity_inv in Hdf' as (sc & Hliq & _ & Hn & Hcols).
  assert (Hcol : forall k', In k' keys -> k' <> "liquidity" ->
            is_Some (columns df !! k') -> has_column k' slugs = true).
  { intros k' Hk' Hne. rewrite (scaled_lookup _ _ _ _ Hcols Hk' Hne).
    destruct (has_column k' slugs); [reflexivity | intros [? [=]]]. }
  simpl in Hk. destruct Hk as [<-|[<-|[<-|[<-|[<-|[]]]]]].
  - apply Hcol; [unfold keys; simpl; tauto | discriminate |].
    unfold first_or_none in Hcur.
    destruct (columns df !! "currentTick"); [eauto | discriminate].
  - assumption.
  - apply Hcol; [unfold keys; simpl; tauto | discriminate |].
    unfold getitem in Hgd.
    destruct (columns df !! "tickLower"); [eauto | discriminate].
  - apply Hcol; [unfold keys; simpl; tauto | discriminate |].
    unfold getitem in Hgu.
    destruct (columns df !! "tickUpper"); [eauto | discriminate].
  - apply Hcol; [unfold keys; simpl; tauto | discriminate |].
    apply draw_rows_ok_inv in Hrows as (_ & _ & Hkeys).
    destruct (iterrows df) as [|row rows] eqn:Hit.
    { apply has_column_nonempty in Hliq.
      apply (f_equal length) in Hit. rewrite iterrows_length, Hn in Hit.
      destruct slugs; [congruence | discriminate]. }
    inversion Hkeys as [|? ? Hrow _]; subst.
    assert (Hr : is_Some (row !! "slugName")).
    { apply Hrow. unfold mandatory. simpl. tauto. }
    rewrite (iterrows_lookup df 0 row "slugName") in Hr
      by now rewrite Hit.
    destruct (columns df !! "slugName"); [eauto | destruct Hr as [? [=]]].
Qed.

End RenderedRecords.

(** ** Properties of a rendered record *)

Section RecordClaims.

Variable float_str : Num.float -> string.
Variable plt : backend.

Lemma process_record_saved (i : nat) (r : record) (name : string)
    (fig : list call) :
  process_record float_str plt i r = Saved name fig ->
  exists e es ts,
    rec_data r = Some (e :: es) /\
    render float_str (e :: es) = (fig, inr ts) /\
    name = filename float_str i ts.
Proof.
  unfold process_record.
  destruct (rec_data r) as [[|e es]|]; try discriminate.
  destruct (render float_str (e :: es)) as [fig' [err|ts]] eqn:Hr;
    [discriminate|].
  destruct (savefig_result plt _ fig'); [discriminate|].
  intros [= <- <-]. now exists e, es, ts.
Qed.

Lemma process_record_saved_file (i : nat) (r : record) (name : string)
    (fig : list call) :
  process_record float_str plt i r = Saved name fig ->
  exists file, savefig_result plt name fig = inr file.
Proof.
  unfold process_record.
  destruct (rec_data r) as [[|e es]|]; try discriminate.
  destruct (render float_str (e :: es)) as [fig' [err|ts]] eqn:Hr;
    [discriminate|].
  destruct (savefig_result plt _ fig') as [|file] eqn:Hs; [discriminate|].
  intros [= <- <-]. eauto.
Qed.

Lemma render_timestamp (slugs : list slug_entry) (fig : list call)
    (ts : option cell) :
  render float_str slugs = (fig, inr ts) -> ts = metadata "timestamp" slugs.
Proof.
  intros H. apply render_ok_inv in H
    as (df & scaled & ml & mt & nt & rows_fig & cur & lo & hi & pos
        & Hdf & Hts & _).
  apply (first_or_none_metadata slugs df "timestamp" ts Hdf);
    [unfold keys; simpl; tauto | easy | exact Hts].
Qed.

(** C2. The timestamp and the current tick that the title, the marker line
    and the file name use are those of the first row of the table built from
    the [data] entries, whenever the key occurs among the entries; the fields
    [timestamp] and [currentTick] at the top level of the record never
    change what is done with the record, whether it is saved, skipped or
    raises. *)
Theorem metadata_from_first_entry (i : nat) (r : record) (name : string)
    (fig : list call) :
  process_record float_str plt i r = Saved name fig ->
  exists e es,
    rec_data r = Some (e :: es) /\
    name = filename float_str i (metadata "timestamp" (e :: es)) /\
    In (SetTitle (title float_str (metadata "timestamp" (e :: es)))) fig /\
    In (Axvline (metadata "currentTick" (e :: es))) fig /\
    (forall k, has_column k (e :: es) = true ->
       metadata k (e :: es)
       = Some (coerce (raw_column k (e :: es)) (field k e))) /\
    (forall top_ts top_ct,
       process_record float_str plt i
         {| rec_data := rec_data r; rec_timestamp := top_ts;
            rec_currentTick := top_ct |} = Saved name fig) /\
    (forall i' r' top_ts top_ct,
       process_record float_str plt i'
         {| rec_data := rec_data r'; rec_timestamp := top_ts;
            rec_currentTick := top_ct |}
       = process_record float_str plt i' r').
Proof.
  intros H. pose proof H as H0.
  apply process_record_saved in H as (e & es & ts & Hd & Hr & ->).
  exists e, es. split; [assumption|].
  pose proof (render_timestamp _ _ _ Hr) as ->.
  apply render_ok_inv in Hr
    as (df & scaled & ml & mt & nt & rows_fig & cur & lo & hi & pos
        & Hdf & Hts & Hcur & _ & _ & _ & _ & _ & _ & _ & ->).
  assert (Hc : Some cur = metadata "currentTick" (e :: es)).
  { apply (first_or_none_metadata (e :: es) df "currentTick" (Some cur) Hdf);
      [unfold keys; simpl; tauto | easy | exact Hcur]. }
  rewrite <- Hc. repeat split.
  - right. apply in_or_app. right. simpl. tauto.
  - right. apply in_or_app. right. simpl. tauto.
  - intros k Hk. unfold metadata. now rewrite Hk.
  - intros top_ts top_ct. exact H0.
Qed.

(** C6. In a rendered record every rectangle has the logarithm of the scaled
    liquidity of its row as height when that liquidity is positive, and 0
    when it is not (in particular when it is at most 0); the upper limit of
    the y axis is 1.1 times the logarithm of the largest scaled liquidity
    when that is positive, and 1 otherwise; and every argument the logarithm
    is applied to while the record is drawn is positive. *)
Theorem log_only_of_positive (slugs : list slug_entry) (fig : list call)
    (ts : option cell) :
  render float_str slugs = (fig, inr ts) ->
  Forall2 (fun e h =>
             let liq := scaled_liquidity e in
             (Num.is_pos liq = true -> h = YLog (CFloat liq)) /\
             (Num.is_nonpos liq = true -> h = YInt 0) /\
             (Num.is_pos liq = false -> h = YInt 0))
    slugs (rect_heights fig) /\
  (let max_liquidity := Num.nanmax (map scaled_liquidity slugs) in
   exists top,
     In (SetYlim 0 top) fig /\
     (Num.is_pos max_liquidity = true ->
      top = YTimes (YLog (CFloat max_liquidity)) Num.f1_1) /\
     (Num.is_pos max_liquidity = false -> top = YInt 1)) /\
  Forall (fun c => cell_gt0 c = inr true) (flat_map call_log_args fig).
Proof.
  intros H. apply render_ok_inv in H
    as (df & scaled & ml & mt & nt & rows_fig & cur & lo & hi & pos
        & Hdf & _ & _ & Hgl & Hml & _ & _ & Hrows & Hpos & _ & ->).
  pose proof (render_heights _ _ _ _ Hdf Hrows) as Hh.
  pose proof Hdf as Hdf'.
  apply scale_liquidity_inv in Hdf' as (sc & _ & Hsc & _ & Hcols).
  apply liquidity_cells in Hsc. subst sc.
  unfold getitem in Hgl. rewrite Hcols, lookup_insert_eq in Hgl.
  injection Hgl as <-.
  rewrite <- (map_map scaled_liquidity CFloat), col_max_floats in Hml.
  injection Hml as <-. simpl in Hpos. injection Hpos as <-.
  split; [|split].
  - change (rect_heights (Subplots :: ?t)) with (rect_heights t).
    rewrite rect_heights_app, Hh. simpl. rewrite app_nil_r.
    clear. induction slugs as [|e es IH]; simpl; constructor; auto.
    unfold height_of.
    repeat split; intros Hl; try apply is_nonpos_not_pos in Hl;
      now rewrite Hl.
  - eexists. split.
    + right. apply in_or_app. right. simpl. right. right. left. reflexivity.
    + split; intros ->; reflexivity.
  - change (flat_map call_log_args (Subplots :: ?t))
      with (flat_map call_log_args t).
    rewrite flat_map_app. apply Forall_app. split.
    + now apply draw_rows_ok_inv in Hrows as (_ & Hargs & _).
    + simpl. destruct (Num.is_pos _) eqn:Hp; simpl; auto.
      constructor; auto. simpl. now rewrite Hp.
Qed.

(** C8. The [liquidity] column of the table the record is drawn from holds,
    for every row, the raw liquidity of the entry divided by 10^18, and the
    heights and the axis limit are computed from these scaled values; the raw
    value 2*10^18 is scaled to exactly 2.0. *)
Theorem liquidity_rescaled (slugs : list slug_entry) (df : frame) :
  scale_liquidity (DataFrame slugs) = inr df ->
  getitem df "liquidity"
  = inr (map (fun e => CFloat (scaled_liquidity e)) slugs) /\
  (forall e, scaled_liquidity e
             = Num.div (match liquidity e with
                        | Some n => Num.to_float n
                        | None => Num.nan
                        end) (Num.of_Z (10 ^ 18))) /\
  (forall rows_fig,
     draw_rows float_str (iterrows df) = (rows_fig, inr tt) ->
     rect_heights rows_fig
     = map (fun e => height_of (scaled_liquidity e)) slugs) /\
  (forall e, liquidity e = Some (NInt 2000000000000000000) ->
             scaled_liquidity e = Num.of_Z 2) /\
  scale_liquidity (DataFrame [Samples.e_lower; Samples.e_upper])
  = inr {| n_rows := 2;
           columns := <["liquidity" := [CFloat (Num.of_Z 2);
                                        CFloat (Num.of_Z 0)]]>
                        (columns (DataFrame [Samples.e_lower;
                                             Samples.e_upper])) |}.
Proof.
  intros Hdf. split; [|split; [|split; [|split]]].
  - apply scale_liquidity_inv in Hdf as (sc & _ & Hsc & _ & Hcols).
    apply liquidity_cells in Hsc. subst sc.
    unfold getitem. now rewrite Hcols, lookup_insert_eq.
  - reflexivity.
  - intros rows_fig. now apply render_heights.
  - intros e He. unfold scaled_liquidity. rewrite He. vm_compute. reflexivity.
  - vm_compute. reflexivity.
Qed.

End RecordClaims.

(** ** The loop over the collected lines *)

Section RunClaims.

Variable json_loads : string -> parsed.
Variable float_str : Num.float -> string.
Variable plt : backend.

Abbreviation process_line := (process_line json_loads float_str plt).
Abbreviation run_records := (run_records json_loads float_str plt).
Abbreviation run_lines := (run_lines json_loads float_str plt).
Abbreviation rendered := (rendered json_loads float_str plt).

(** No line of [lines], the first of which has index [i], raises. *)
Abbreviation no_raise i lines :=
  (forall j l, lines !! j = Some l ->
     forall fig e, process_line (i + j) l <> Raised fig e).

Lemma files_print (s : string) (w : world) : files (print s w) = files w.
Proof. reflexivity. Qed.

Lemma savefig_result_file (name : string) (fig : list call) (file : string) :
  savefig_result plt name fig = inr file -> open_wb plt name = inr file.
Proof. unfold savefig_result. now destruct (draw_error plt fig). Qed.

Lemma savefig_files (name : string) (fig : list call) (file : string)
    (w : world) :
  savefig_result plt name fig = inr file ->
  savefig plt name fig w
  = {| stdout := stdout w; files := <[file := fig]> (files w) |}.
Proof. unfold savefig. now intros ->. Qed.

Lemma savefig_stdout (name : string) (fig : list call) (w : world) :
  stdout (savefig plt name fig w) = stdout w.
Proof. unfold savefig. now destruct (savefig_result plt name fig). Qed.

Lemma savefig_mono (name : string) (fig : list call) (w : world)
    (file : string) :
  is_Some (files w !! file) ->
  is_Some (files (savefig plt name fig w) !! file).
Proof.
  unfold savefig. destruct (savefig_result plt name fig) as [|f]; [auto|].
  simpl. intros H. destruct (decide (f = file)) as [->|Hne].
  - rewrite lookup_insert_eq. eauto.
  - now rewrite lookup_insert_ne.
Qed.

Lemma saved_file (i : nat) (l name : string) (fig : list call) :
  process_line i l = Saved name fig ->
  exists file, savefig_result plt name fig = inr file.
Proof.
  unfold process_line. destruct (json_loads l) as [r| |]; try discriminate.
  apply process_record_saved_file.
Qed.


Lemma skipped_is_diagnostic (i : nat) (l d : string) :
  process_line i l = Skipped d -> is_diagnostic d.
Proof.
  unfold process_line, process_record, is_diagnostic.
  destruct (json_loads l) as [r|msg|e]; [| intros [= <-]; eauto | discriminate].
  destruct (rec_data r) as [[|e0 es]|]; try (intros [= <-]; auto).
  destruct (render float_str (e0 :: es)) as [fig [?|ts]]; [discriminate|].
  destruct (savefig_result plt _ fig); discriminate.
Qed.


(** Files are never removed. *)
Lemma run_records_files_mono (i : nat) (lines : list string) (w : world)
    (file : string) :
  is_Some (files w !! file) ->
  is_Some (files (fst (run_records i lines w)) !! file).
Proof.
  revert i w. induction lines as [|l lines IH]; intros i w Hn; simpl.
  - exact Hn.
  - destruct (process_line i l) as [d|n fig|fig e]; simpl; auto.
    apply IH. now apply savefig_mono.
Qed.

(** The loop passes a prefix of lines that do not raise, counting them. *)
Lemma run_records_prefix (pre post : list string) (i : nat) (w : world) :
  no_raise i pre ->
  exists w',
    run_records i (pre ++ post) w = run_records (i + length pre) post w' /\
    (forall file, is_Some (files w !! file) -> is_Some (files w' !! file)) /\
    (forall j l name fig file,
       pre !! j = Some l -> process_line (i + j) l = Saved name fig ->
       open_wb plt name = inr file -> is_Some (files w' !! file)) /\
    size (files w') <= size (files w) + rendered i pre /\
    (forall j l name fig file,
       pre !! j = Some l -> process_line (i + j) l = Saved name fig ->
       open_wb plt name = inr file ->
       (forall j' l' n fg, j < j' -> pre !! j' = Some l' ->
          process_line (i + j') l' = Saved n fg -> open_wb plt n <> inr file) ->
       files w' !! file = Some fig) /\
    (forall file,
       (forall j l n fg, pre !! j = Some l ->
          process_line (i + j) l = Saved n fg -> open_wb plt n <> inr file) ->
       files w' !! file = files w !! file) /\
    (exists diags,
       stdout w' = stdout w ++ diags /\ Forall is_diagnostic diags).
Proof.
  revert i w. induction pre as [|l pre IH]; intros i w Hok.
  - exists w. simpl. rewrite Nat.add_0_r.
    split; [reflexivity|]. split; [auto|]. split; [discriminate|].
    split; [lia|]. split; [discriminate|]. split; [auto|].
    exists []. split; [now rewrite app_nil_r | constructor].
  - assert (Hpre : no_raise (S i) pre).
    { intros j l' Hj fig e. specialize (Hok (S j) l' Hj fig e).
      now rewrite Nat.add_succ_r in Hok. }
    pose proof (Hok 0%nat l eq_refl) as Hl. rewrite Nat.add_0_r in Hl.
    simpl app. simpl length. rewrite Nat.add_succ_r.
    change (run_records i (l :: pre ++ post) w)
      with (match process_line i l with
            | Skipped diagnostic =>
                run_records (S i) (pre ++ post) (print diagnostic w)
            | Saved name fig =>
                run_records (S i) (pre ++ post) (savefig plt name fig w)
            | Raised _ e => (w, Traceback e)
            end).
    change (rendered i (l :: pre))
      with (match process_line i l with
            | Saved _ _ => S (rendered (S i) pre)
            | _ => rendered (S i) pre
            end).
    destruct (process_line i l) as [d|n fg|fg e] eqn:Hp.
    + destruct (IH (S i) (print d w) Hpre)
        as (w' & E & Hmono & Hsaved & Hsize & Hlast & Hsame & Hout).
      exists w'. split; [exact E|]. split; [exact Hmono|].
      split; [|split; [exact Hsize|split; [|split]]].
      * intros [|j] l' name fig file Hj Hs Hf; simpl in Hj.
        -- injection Hj as <-. rewrite Nat.add_0_r in Hs. congruence.
        -- rewrite Nat.add_succ_r in Hs. eapply Hsaved; eauto.
      * intros [|j] l' name fig file Hj Hs Hf Hlater; simpl in Hj.
        -- injection Hj as <-. rewrite Nat.add_0_r in Hs. congruence.
        -- rewrite Nat.add_succ_r in Hs.
           apply (Hlast j l' name fig file Hj Hs Hf).
           intros j' l'' n' fg' Hlt Hj' Hs'.
           apply (Hlater (S j') l'' n' fg'); [lia | exact Hj' |].
           now rewrite Nat.add_succ_r.
      * intros file Hne. apply Hsame. intros j l' n fig Hj Hs.
        apply (Hne (S j) l' n fig Hj). now rewrite Nat.add_succ_r.
      * destruct Hout as (diags & Ho & Hd). exists (d :: diags).
        split; [simpl in Ho; now rewrite Ho, <- app_assoc|].
        constructor; [|exact Hd]. eapply skipped_is_diagnostic; eauto.
    + destruct (saved_file i l n fg Hp) as (f & Hf).
      pose proof (savefig_result_file _ _ _ Hf) as Hopen.
      destruct (IH (S i) (savefig plt n fg w) Hpre)
        as (w' & E & Hmono & Hsaved & Hsize & Hlast & Hsame & Hout).
      assert (Hfiles : files (savefig plt n fg w) = <[f := fg]> (files w)).
      { now rewrite (savefig_files _ _ _ _ Hf). }
      exists w'. split; [exact E|]. split; [|split; [|split; [|split; [|split]]]].
      * intros file Hn. apply Hmono. now apply savefig_mono.
      * intros [|j] l' name fig file Hj Hs Hfile; simpl in Hj.
        -- injection Hj as <-. rewrite Nat.add_0_r, Hp in Hs.
           injection Hs as <- <-. apply Hmono. rewrite Hfiles.
           assert (f = file) as -> by congruence.
           rewrite lookup_insert_eq. eauto.
        -- rewrite Nat.add_succ_r in Hs. eapply Hsaved; eauto.
      * rewrite Hfiles, map_size_insert in Hsize.
        destruct (files w !! f); simpl in Hsize; lia.
      * intros [|j] l' name fig file Hj Hs Hfile Hlater; simpl in Hj.
        -- injection Hj as <-. rewrite Nat.add_0_r, Hp in Hs.
           injection Hs as <- <-.
           assert (f = file) as -> by congruence.
           rewrite Hsame.
           ++ rewrite Hfiles. apply lookup_insert_eq.
           ++ intros j l' n' fg' Hj Hs.
              apply (Hlater (S j) l' n' fg'); [lia | exact Hj |].
              now rewrite Nat.add_succ_r.
        -- rewrite Nat.add_succ_r in Hs.
           apply (Hlast j l' name fig file Hj Hs Hfile).
           intros j' l'' n' fg' Hlt Hj' Hs'.
           apply (Hlater (S j') l'' n' fg'); [lia | exact Hj' |].
           now rewrite Nat.add_succ_r.
      * intros file Hne. rewrite Hsame.
        -- rewrite Hfiles. apply lookup_insert_ne. intros ->.
           apply (Hne 0%nat l n fg eq_refl);
             [now rewrite Nat.add_0_r | exact Hopen].
        -- intros j l' n' fig Hj Hs.
           apply (Hne (S j) l' n' fig Hj). now rewrite Nat.add_succ_r.
      * destruct Hout as (diags & Ho & Hd). exists diags.
        split; [now rewrite Ho, savefig_stdout | exact Hd].
    + exfalso. eapply Hl; eauto.
Qed.



Lemma run_records_all (lines : list string) (i : nat) (w : world) :
  no_raise i lines ->
  exists w',
    run_records i lines w
    = (print "Charts have been generated and saved." w', Exit 0) /\
    (forall j l name fig file,
       lines !! j = Some l -> process_line (i + j) l = Saved name fig ->
       open_wb plt name = inr file -> is_Some (files w' !! file)) /\
    size (files w') <= size (files w) + rendered i lines /\
    (exists diags,
       stdout w' = stdout w ++ diags /\ Forall is_diagnostic diags).
Proof.
  intros Hok.
  destruct (run_records_prefix lines [] i w Hok)
    as (w' & E & _ & Hsaved & Hsize & _ & _ & Hout).
  rewrite app_nil_r in E. exists w'. auto.
Qed.

(** C5, as amended. A collected line on which [json.loads] raises
    [JSONDecodeError], and a parsed record whose [data] list is missing or
    empty, only prints its diagnostic: no image is written for it and the
    loop goes on with the remaining lines.  Every record after it that is
    saved, with no line between the two that raises, has its image in place
    at the end of the run, and the run completes with status 0 when no
    remaining line raises.  A line on which [json.loads] raises another
    exception is not skipped: the exception ends the run. *)
Theorem skipped_line_continues (i : nat) (l : string) (rest : list string)
    (w : world) :
  (exists e, json_loads l = JSONDecodeError e) \/
  (exists r, json_loads l = Parsed r /\
             (rec_data r = None \/ rec_data r = Some [])) ->
  exists diagnostic,
    (forall e, json_loads l = JSONDecodeError e ->
               diagnostic = "Error parsing JSON: " +:+ e) /\
    (forall r, json_loads l = Parsed r ->
               diagnostic = "No slug data found in the JSON.") /\
    process_line i l = Skipped diagnostic /\
    run_records i (l :: rest) w = run_records (S i) rest (print diagnostic w) /\
    files (print diagnostic w) = files w /\
    (forall pre post j l' name fig file,
       rest = pre ++ post -> no_raise (S i) pre ->
       pre !! j = Some l' -> process_line (S i + j) l' = Saved name fig ->
       open_wb plt name = inr file ->
       is_Some (files (fst (run_records i (l :: rest) w)) !! file)) /\
    (no_raise (S i) rest ->
     exists w', run_records i (l :: rest) w
                = (print "Charts have been generated and saved." w', Exit 0)) /\
    (forall l' e j rest' w0,
       json_loads l' = LoadsError e ->
       run_records j (l' :: rest') w0 = (w0, Traceback e)).
Proof.
  intros Hskip.
  assert (Hd : exists diagnostic,
             (forall e, json_loads l = JSONDecodeError e ->
                        diagnostic = "Error parsing JSON: " +:+ e) /\
             (forall r, json_loads l = Parsed r ->
                        diagnostic = "No slug data found in the JSON.") /\
             process_line i l = Skipped diagnostic).
  { unfold process_line.
    destruct Hskip as [(e & He) | (r & Hr & Hdata)].
    - exists ("Error parsing JSON: " +:+ e). rewrite He.
      repeat split; congruence.
    - exists "No slug data found in the JSON.". rewrite Hr.
      unfold process_record.
      repeat split; try congruence.
      now destruct Hdata as [-> | ->]. }
  destruct Hd as (diagnostic & He & Hr & Hp).
  exists diagnostic.
  assert (E : run_records i (l :: rest) w
              = run_records (S i) rest (print diagnostic w)).
  { simpl. now rewrite Hp. }
  repeat split; auto.
  - intros pre post j l' name fig file -> Hok Hj Hs Hf. rewrite E.
    destruct (run_records_prefix pre post (S i) (print diagnostic w) Hok)
      as (w' & E' & _ & Hsaved & _).
    rewrite E'. apply run_records_files_mono. eapply Hsaved; eauto.
  - intros Hok. rewrite E.
    destruct (run_records_all rest (S i) (print diagnostic w) Hok)
      as (w' & E' & _).
    eauto.
  - intros l' e j rest' w0 Hl. simpl. unfold process_line.
    now rewrite Hl.
Qed.


(** C9. A rendered record is saved as [slug_plot_<timestamp>.png] when its
    timestamp metadata is present and as [slug_plot_<i>.png] otherwise, where
    [i] counts the lines of the collected block before it, skipped ones
    included; a record whose entries all have timestamp 12345 is saved as
    [slug_plot_12345.png], and a record without timestamp at index 2 as
    [slug_plot_2.png]. *)
Theorem output_filename (i : nat) (r : record) (name : string)
    (fig : list call) :
  process_record float_str plt i r = Saved name fig ->
  (exists slugs,
     rec_data r = Some slugs /\
     name = match metadata "timestamp" slugs with
            | Some ts => "slug_plot_" +:+ py_str float_str ts +:+ ".png"
            | None => "slug_plot_" +:+ nat_str i +:+ ".png"
            end) /\
  (forall pre l post w,
     no_raise 0 pre ->
     exists w',
       run_records 0 (pre ++ l :: post) w
       = match process_line (length pre) l with
         | Skipped diagnostic =>
             run_records (S (length pre)) post (print diagnostic w')
         | Saved name' fig' =>
             run_records (S (length pre)) post (savefig plt name' fig' w')
         | Raised _ e => (w', Traceback e)
         end) /\
  (exists fig',
     process_record float_str Samples.plt i (Samples.with_data [Samples.e_lower])
     = Saved "slug_plot_12345.png" fig' /\
     forall file,
       savefig_result plt "slug_plot_12345.png" fig' = inr file ->
       process_record float_str plt i (Samples.with_data [Samples.e_lower])
       = Saved "slug_plot_12345.png" fig') /\
  (exists fig',
     process_record float_str Samples.plt 2
       (Samples.with_data [Samples.e_untimed])
     = Saved "slug_plot_2.png" fig' /\
     forall file,
       savefig_result plt "slug_plot_2.png" fig' = inr file ->
       process_record float_str plt 2 (Samples.with_data [Samples.e_untimed])
       = Saved "slug_plot_2.png" fig').
Proof.
  intros H. split; [|split; [|split]].
  - apply process_record_saved in H as (e & es & ts & Hd & Hr & ->).
    exists (e :: es). split; [assumption|].
    now rewrite (render_timestamp _ _ _ _ Hr).
  - intros pre l post w Hok.
    destruct (run_records_prefix pre (l :: post) 0 w Hok) as (w' & E & _).
    exists w'. rewrite E. reflexivity.
  - assert (Hr : render float_str [Samples.e_lower]
                 = (fst (render float_str [Samples.e_lower]),
                    inr (Some (CInt 12345))))
      by (vm_compute; reflexivity).
    exists (fst (render float_str [Samples.e_lower])). split.
    + vm_compute. reflexivity.
    + intros file Hs. unfold process_record.
      change (rec_data (Samples.with_data [Samples.e_lower]))
        with (Some [Samples.e_lower]).
      remember (fst (render float_str [Samples.e_lower])) as fig' eqn:Hfig.
      cbv iota. rewrite Hr.
      change (filename float_str i (Some (CInt 12345)))
        with "slug_plot_12345.png".
      now rewrite Hs.
  - assert (Hr : render float_str [Samples.e_untimed]
                 = (fst (render float_str [Samples.e_untimed]), inr None))
      by (vm_compute; reflexivity).
    exists (fst (render float_str [Samples.e_untimed])). split.
    + vm_compute. reflexivity.
    + intros file Hs. unfold process_record.
      change (rec_data (Samples.with_data [Samples.e_untimed]))
        with (Some [Samples.e_untimed]).
      remember (fst (render float_str [Samples.e_untimed])) as fig' eqn:Hfig.
      cbv iota. rewrite Hr.
      change (filename float_str 2 None) with "slug_plot_2.png".
      now rewrite Hs.
Qed.


End RunClaims.

(** ** A record whose table lacks a mandatory column *)

Lemma first_missing_cases (slugs : list slug_entry) (k0 : string) :
  first_missing slugs = Some k0 ->
  (k0 = "liquidity" /\ has_column "liquidity" slugs = false) \/
  (has_column "liquidity" slugs = true /\
   ((k0 = "tickUpper" /\ has_column "tickUpper" slugs = false) \/
    (has_column "tickUpper" slugs = true /\
     ((k0 = "tickLower" /\ has_column "tickLower" slugs = false) \/
      (has_column "tickLower" slugs = true /\
       k0 = "slugName" /\ has_column "slugName" slugs = false))))).
Proof.
  unfold first_missing, reading_order. simpl.
  destruct (has_column "liquidity" slugs); simpl; [|intros [= <-]; tauto].
  destruct (has_column "tickUpper" slugs); simpl; [|intros [= <-]; tauto].
  destruct (has_column "tickLower" slugs); simpl; [|intros [= <-]; tauto].
  destruct (has_column "slugName" slugs); simpl; [discriminate|].
  intros [= <-]. tauto.
Qed.

Lemma first_missing_exists (slugs : list slug_entry) (k : string) :
  In k mandatory -> has_column k slugs = false ->
  exists k0, first_missing slugs = Some k0 /\ In k0 mandatory /\
             has_column k0 slugs = false /\
             (k = "liquidity" -> k0 = "liquidity").
Proof.
  unfold first_missing, reading_order, mandatory. simpl.
  intros Hk Hcol.
  destruct (has_column "liquidity" slugs) eqn:H1; simpl.
  2:{ exists "liquidity". tauto. }
  destruct (has_column "tickUpper" slugs) eqn:H2; simpl.
  2:{ exists "tickUpper". repeat split; auto. intros ->. congruence. }
  destruct (has_column "tickLower" slugs) eqn:H3; simpl.
  2:{ exists "tickLower". repeat split; auto. intros ->. congruence. }
  destruct (has_column "slugName" slugs) eqn:H4; simpl.
  2:{ exists "slugName". repeat split; auto 6. intros ->. congruence. }
  destruct Hk as [<-|[<-|[<-|[<-|[]]]]]; congruence.
Qed.

Lemma traverse_as_float_ok (col : list cell) :
  Forall (fun c => forall s, c <> CStr s) col ->
  exists fs, traverse as_float col = inr fs.
Proof.
  induction 1 as [|c col Hc _ (fs & IH)]; simpl; [eauto|].
  rewrite IH. destruct c as [z|f|s]; simpl; eauto.
  now destruct (Hc s).
Qed.

Lemma col_extrema_ok (col : list cell) :
  Forall (fun c => forall s, c <> CStr s) col ->
  (exists c, col_max col = inr c) /\ (exists c, col_min col = inr c).
Proof.
  intros H. destruct (traverse_as_float_ok col H) as (fs & Hfs).
  unfold col_max, col_min. rewrite Hfs.
  destruct (all_ints col) as [[|z zs]|]; eauto.
Qed.

Lemma tick_column_numeric (f : slug_entry -> option Z)
    (slugs : list slug_entry) :
  Forall (fun c => forall s, c <> CStr s)
    (infer_column (map (fun e => (fun z => SNum (NInt z)) <$> f e) slugs)).
Proof.
  unfold infer_column. rewrite map_map. apply Forall_map, Forall_forall.
  intros e _ s.
  destruct (coerce_cases (map (fun e => (fun z => SNum (NInt z)) <$> f e) slugs))
    as [-> | ->]; destruct (f e); discriminate.
Qed.

Section MissingColumn.

Variable json_loads : string -> parsed.
Variable float_str : Num.float -> string.
Variable plt : backend.

(** What [render] does with a record whose table lacks a mandatory column:
    the lookup of the first such column that is read raises, unless the
    division of line 55 raises before. *)
Lemma render_missing (slugs : list slug_entry) (k0 : string) :
  slugs <> [] -> first_missing slugs = Some k0 ->
  (k0 = "liquidity" /\
   render float_str slugs = ([], inl (KeyError "liquidity"))) \/
  (k0 <> "liquidity" /\
   exists e, scale_liquidity (DataFrame slugs) = inl e /\
             render float_str slugs = ([], inl e)) \/
  (k0 <> "liquidity" /\
   render float_str slugs = ([Subplots], inl (KeyError k0))).
Proof.
  intros Hne Hfm. destruct slugs as [|e0 es0]; [congruence|]. clear Hne.
  apply first_missing_cases in Hfm as [(-> & Hl) | (Hl & Hfm)].
  { left. split; [reflexivity|]. unfold render, scale_liquidity, getitem.
    rewrite DataFrame_lookup, Hl by (unfold keys; simpl; tauto).
    reflexivity. }
  right.
  assert (Hk0 : k0 <> "liquidity").
  { destruct Hfm as [(-> & _) | (_ & [(-> & _) | (_ & -> & _)])];
      discriminate. }
  destruct (scale_liquidity (DataFrame (e0 :: es0))) as [e|df] eqn:Hdf.
  { left. split; [exact Hk0|]. exists e. split; [reflexivity|].
    unfold render. rewrite Hdf. reflexivity. }
  right. split; [exact Hk0|].
  pose proof Hdf as Hdf'.
  apply scale_liquidity_inv in Hdf' as (scaled & _ & Hsc & Hn & Hcols).
  pose proof (traverse_length _ _ _ Hsc) as Hlen.
  apply liquidity_cells in Hsc.
  assert (Hk : forall k, In k keys -> k <> "liquidity" ->
            columns df !! k
            = if has_column k (e0 :: es0)
              then Some (infer_column (raw_column k (e0 :: es0))) else None).
  { intros k. now apply scaled_lookup with (scaled := scaled). }
  assert (Hlq : columns df !! "liquidity" = Some scaled)
    by (rewrite Hcols; apply lookup_insert_eq).
  assert (Hfirst : forall k, In k keys -> k <> "liquidity" ->
            exists m, first_or_none df k = inr m).
  { intros k Hin Hkne. unfold first_or_none. rewrite (Hk k Hin Hkne).
    destruct (has_column k (e0 :: es0)); simpl; eauto. }
  destruct (Hfirst "timestamp") as (ts & Hts);
    [unfold keys; simpl; tauto | discriminate |].
  destruct (Hfirst "currentTick") as (cur & Hcur);
    [unfold keys; simpl; tauto | discriminate |].
  assert (Hml : col_max scaled
                = inr (CFloat (Num.nanmax
                                 (map scaled_liquidity (e0 :: es0))))).
  { rewrite Hsc, <- (map_map scaled_liquidity CFloat).
    apply col_max_floats. }
  unfold render, getitem.
  rewrite Hdf, bind_lift_ok, Hts, bind_lift_ok, Hcur, bind_lift_ok.
  apply bind_emit_ok.
  rewrite Hlq, Hml, bind_lift_ok.
  rewrite (Hk "tickUpper") by (unfold keys; simpl; tauto || discriminate).
  destruct Hfm as [(-> & Hu) | (Hu & Hfm)]; rewrite Hu; [reflexivity|].
  destruct (col_extrema_ok _ (tick_column_numeric tickUpper (e0 :: es0)))
    as ((mx & Hmx) & _).
  change (map (fun e => (fun z => SNum (NInt z)) <$> tickUpper e) (e0 :: es0))
    with (raw_column "tickUpper" (e0 :: es0)) in Hmx.
  rewrite Hmx, bind_lift_ok.
  rewrite (Hk "tickLower") by (unfold keys; simpl; tauto || discriminate).
  destruct Hfm as [(-> & Hlo) | (Hlo & -> & Hnm)]; rewrite Hlo; [reflexivity|].
  destruct (col_extrema_ok _ (tick_column_numeric tickLower (e0 :: es0)))
    as (_ & (mn & Hmn)).
  change (map (fun e => (fun z => SNum (NInt z)) <$> tickLower e) (e0 :: es0))
    with (raw_column "tickLower" (e0 :: es0)) in Hmn.
  rewrite Hmn, bind_lift_ok.
  assert (Hrows : draw_rows float_str (iterrows df)
                  = ([], inl (KeyError "slugName"))).
  { destruct (iterrows df) as [|row rows] eqn:Hit.
    { apply (f_equal length) in Hit. rewrite iterrows_length, Hn in Hit.
      discriminate. }
    assert (Hrow : iterrows df !! 0 = Some row) by now rewrite Hit.
    simpl draw_rows. unfold draw_row, row_get.
    rewrite !(iterrows_lookup df 0 row _ Hrow), Hlq.
    rewrite !Hk by (unfold keys; simpl; tauto || discriminate).
    rewrite Hlo, Hu, Hnm, Hsc. reflexivity. }
  rewrite Hrows. reflexivity.
Qed.

(** C7, as amended. When no entry of a non-empty [data] list carries one of
    the mandatory keys, the table has no such column and an exception is
    raised that nothing catches: the run ends at that record with the state
    it had, with status 1, and the remaining lines are not processed.  The
    exception is the [KeyError] of the first column the table lacks, in the
    order [liquidity], [tickUpper], [tickLower], [slugName] in which the
    script reads them, raised before anything but the empty figure is drawn;
    unless that column is not [liquidity] and the division of the
    [liquidity] column on line 55 raises first. *)
Theorem missing_column_aborts (i : nat) (l : string) (r : record)
    (slugs : list slug_entry) (rest : list string) (w : world) (k : string) :
  json_loads l = Parsed r ->
  rec_data r = Some slugs ->
  slugs <> [] ->
  In k mandatory ->
  has_column k slugs = false ->
  exists fig e k0,
    process_line json_loads float_str plt i l = Raised fig e /\
    run_records json_loads float_str plt i (l :: rest) w = (w, Traceback e) /\
    exit_code (snd (run_records json_loads float_str plt i (l :: rest) w))
    = 1%Z /\
    first_missing slugs = Some k0 /\
    In k0 mandatory /\ has_column k0 slugs = false /\
    ((e = KeyError k0 /\ (fig = [] \/ fig = [Subplots])) \/
     (k0 <> "liquidity" /\ fig = [] /\
      scale_liquidity (DataFrame slugs) = inl e)) /\
    (k = "liquidity" -> e = KeyError "liquidity").
Proof.
  intros Hl Hd Hne Hk Hcol.
  destruct (first_missing_exists slugs k Hk Hcol)
    as (k0 & Hfm & Hin & Hc0 & Hliq).
  assert (Hp : forall fig e,
             render float_str slugs = (fig, inl e) ->
             process_line json_loads float_str plt i l = Raised fig e).
  { intros fig e Hr. unfold process_line, process_record.
    rewrite Hl, Hd, Hr. destruct slugs; [congruence | reflexivity]. }
  destruct (render_missing slugs k0 Hne Hfm)
    as [(-> & Hr) | [(Hk0 & e & Hs & Hr) | (Hk0 & Hr)]].
  - exists [], (KeyError "liquidity"), "liquidity".
    simpl. rewrite (Hp _ _ Hr). repeat split; auto.
  - exists [], e, k0. simpl. rewrite (Hp _ _ Hr). repeat split; auto.
    intros ->. now destruct Hk0; apply Hliq.
  - exists [Subplots], (KeyError k0), k0.
    simpl. rewrite (Hp _ _ Hr). repeat split; auto.
    intros ->. now destruct Hk0; apply Hliq.
Qed.

End MissingColumn.

(** ** The marker line *)

(** C1. The call that draws the marker line is not guarded: for a record
    whose entries carry no [currentTick], [ax.axvline] is called with [None]
    and raises, so that the record is not rendered and the run ends there.
    In general, rendering succeeds only when some entry carries
    [currentTick]. *)
Theorem marker_call_not_guarded :
  metadata "currentTick" [Samples.e_plain] = None /\
  (exists fig,
     process_record Samples.float_str Samples.plt 0 (Samples.with_data [Samples.e_plain])
     = Raised (fig ++ [Axvline None]) TypeError) /\
  run_lines Samples.loads Samples.float_str Samples.plt ["Logs:"; Samples.l_plain]
    Samples.empty_world
  = (Samples.empty_world, Traceback TypeError) /\
  (forall float_str slugs,
     has_column "currentTick" slugs = true \/
     exists fig e, render float_str slugs = (fig, inl e)).
Proof.
  split; [reflexivity|]. split; [|split].
  - eexists [_; _; _]. vm_compute. reflexivity.
  - vm_compute. reflexivity.
  - intros float_str slugs.
    destruct (render float_str slugs) as [fig [e|ts]] eqn:Hr; [eauto|].
    left. apply (render_ok_columns float_str slugs fig ts); [exact Hr|].
    now left.
Qed.

(** ** The properties at the sample inputs *)

Lemma extraction_boundary_witness :
  collect_json
    (skipn 2 ["noise"; "Logs:"; " {a} "; "{b}"; "stop"; "{c}"])
  = map Text.strip [" {a} "; "{b}"].
Proof.
  destruct (extraction_boundary ["noise"] "Logs:" [" {a} "; "{b}"] "stop"
              ["{c}"]) as (_ & H & _).
  - repeat constructor.
  - reflexivity.
  - repeat constructor.
  - reflexivity.
  - repeat constructor.
  - exact H.
Defined.

Lemma metadata_from_first_entry_witness :
  let slugs := [Samples.e_lower; Samples.e_upper] in
  process_record Samples.float_str Samples.plt 0 (Samples.with_data slugs)
  = Saved "slug_plot_12345.png" (fst (render Samples.float_str slugs)) /\
  In (Axvline (Some (CInt 150))) (fst (render Samples.float_str slugs)).
Proof.
  intros slugs.
  assert (H : process_record Samples.float_str Samples.plt 0
                (Samples.with_data slugs)
              = Saved "slug_plot_12345.png"
                  (fst (render Samples.float_str slugs))).
  { vm_compute. reflexivity. }
  split; [exact H|].
  destruct (metadata_from_first_entry Samples.float_str Samples.plt 0 _ _ _ H)
    as (e & es & Hd & _ & _ & Hax & _).
  injection Hd as <- <-. exact Hax.
Defined.

Lemma log_only_of_positive_witness :
  let slugs := [Samples.e_lower; Samples.e_upper] in
  render Samples.float_str slugs
  = (fst (render Samples.float_str slugs), inr (Some (CInt 12345))) /\
  Forall (fun c => cell_gt0 c = inr true)
    (flat_map call_log_args (fst (render Samples.float_str slugs))).
Proof.
  intros slugs.
  assert (H : render Samples.float_str slugs
              = (fst (render Samples.float_str slugs),
                 inr (Some (CInt 12345)))).
  { vm_compute. reflexivity. }
  split; [exact H|].
  destruct (log_only_of_positive Samples.float_str _ _ _ H) as (_ & _ & Hargs).
  exact Hargs.
Defined.

Lemma liquidity_rescaled_witness :
  let df := {| n_rows := 1;
               columns := <["liquidity" := [CFloat (Num.of_Z 2)]]>
                            (columns (DataFrame [Samples.e_lower])) |} in
  scale_liquidity (DataFrame [Samples.e_lower]) = inr df /\
  getitem df "liquidity" = inr [CFloat (Num.of_Z 2)].
Proof.
  intros df.
  assert (H : scale_liquidity (DataFrame [Samples.e_lower]) = inr df).
  { vm_compute. reflexivity. }
  split; [exact H|].
  destruct (liquidity_rescaled Samples.float_str _ _ H) as (Hg & _).
  rewrite Hg. vm_compute. reflexivity.
Defined.

Lemma skipped_line_continues_witness :
  Samples.loads Samples.l_broken
  = JSONDecodeError
      "Expecting property name enclosed in double quotes: line 1 column 2 (char 1)" /\
  exists diagnostic,
    run_records Samples.loads Samples.float_str Samples.plt 0
      [Samples.l_broken; Samples.l_one] Samples.empty_world
    = run_records Samples.loads Samples.float_str Samples.plt 1 [Samples.l_one]
        (print diagnostic Samples.empty_world) /\
    is_Some (files (fst (run_records Samples.loads Samples.float_str
                           Samples.plt 0 [Samples.l_broken; Samples.l_one]
                           Samples.empty_world))
             !! "slug_plot_12345.png").
Proof.
  assert (H : Samples.loads Samples.l_broken
              = JSONDecodeError
                  "Expecting property name enclosed in double quotes: line 1 column 2 (char 1)").
  { vm_compute. reflexivity. }
  split; [exact H|].
  destruct (skipped_line_continues Samples.loads Samples.float_str Samples.plt 0
              Samples.l_broken [Samples.l_one] Samples.empty_world)
    as (diagnostic & _ & _ & _ & E & _ & Hlater & _).
  - left. eexists. exact H.
  - exists diagnostic. split; [exact E|].
    apply (Hlater [Samples.l_one] [] 0%nat Samples.l_one "slug_plot_12345.png"
             (fst (render Samples.float_str [Samples.e_lower]))
             "slug_plot_12345.png").
    + reflexivity.
    + intros [|j] l Hj fig e; simpl in Hj; try discriminate.
      injection Hj as <-. vm_compute. discriminate.
    + reflexivity.
    + vm_compute. reflexivity.
    + reflexivity.
Defined.


Lemma output_filename_witness :
  let r := Samples.with_data [Samples.e_untimed] in
  process_record Samples.float_str Samples.plt 2 r
  = Saved "slug_plot_2.png" (fst (render Samples.float_str [Samples.e_untimed]))
  /\ exists slugs,
       rec_data r = Some slugs /\
       "slug_plot_2.png"
       = match metadata "timestamp" slugs with
         | Some ts => "slug_plot_" +:+ py_str Samples.float_str ts +:+ ".png"
         | None => "slug_plot_" +:+ nat_str 2 +:+ ".png"
         end.
Proof.
  intros r.
  assert (H : process_record Samples.float_str Samples.plt 2 r
              = Saved "slug_plot_2.png"
                  (fst (render Samples.float_str [Samples.e_untimed]))).
  { vm_compute. reflexivity. }
  split; [exact H|].
  destruct (output_filename Samples.loads Samples.float_str Samples.plt 2 r _ _ H)
    as (Hname & _).
  exact Hname.
Defined.


(** ** Where the specification and the script part *)


(** C5 as stated fails: a collected line on which [json.loads] raises
    something other than [JSONDecodeError] (here the [ValueError] for an
    integer of 4301 digits) fails to parse, but no diagnostic is printed and
    the run does not continue: no chart is produced for the valid record
    that follows it. *)
Lemma uncaught_loads_error_ends_run :
  let lines := ["Logs:"; Samples.l_huge; Samples.l_one] in
  let result :=
    run_lines Samples.loads Samples.float_str Samples.plt lines
      Samples.empty_world in
  collect_json (skipn 1 lines) = [Samples.l_huge; Samples.l_one] /\
  Samples.loads Samples.l_huge = LoadsError ValueError /\
  (exists fig,
     process_line Samples.loads Samples.float_str Samples.plt 1 Samples.l_one
     = Saved "slug_plot_12345.png" fig) /\
  result = (Samples.empty_world, Traceback ValueError).
Proof.
  intros lines result. subst result lines.
  split; [vm_compute; reflexivity|].
  split; [vm_compute; reflexivity|].
  split; [eexists; vm_compute; reflexivity|].
  vm_compute. reflexivity.
Defined.

(** C7 as stated fails: an entry that lacks [liquidity] while another entry
    of the record carries it gets a missing value, the record is rendered,
    and the run goes on with the next record. *)
Lemma partial_entry_does_not_abort :
  let lines := ["Logs:"; Samples.l_partial; Samples.l_untimed] in
  let result :=
    run_lines Samples.loads Samples.float_str Samples.plt lines
      Samples.empty_world in
  Samples.loads Samples.l_partial
  = Parsed (Samples.with_data [Samples.e_lower; Samples.e_no_liquidity]) /\
  liquidity Samples.e_no_liquidity = None /\
  (exists fig,
     process_record Samples.float_str Samples.plt 0
       (Samples.with_data [Samples.e_lower; Samples.e_no_liquidity])
     = Saved "slug_plot_12345.png" fig /\
     rect_heights fig = [YLog (CFloat (Num.of_Z 2)); YInt 0]) /\
  snd result = Exit 0 /\
  stdout (fst result) = ["Charts have been generated and saved."] /\
  is_Some (files (fst result) !! "slug_plot_12345.png") /\
  is_Some (files (fst result) !! "slug_plot_1.png").
Proof.
  intros lines result. subst result lines.
  split; [vm_compute; reflexivity|].
  split; [reflexivity|].
  split; [eexists; split; vm_compute; reflexivity|].
  repeat split; try (vm_compute; reflexivity); vm_compute; eauto.
Defined.

Lemma missing_column_aborts_witness :
  has_column "liquidity" [Samples.e_no_liquidity] = false /\
  run_records Samples.loads Samples.float_str Samples.plt 0
    [Samples.l_bare; Samples.l_one] Samples.empty_world
  = (Samples.empty_world, Traceback (KeyError "liquidity")).
Proof.
  split; [reflexivity|].
  destruct (missing_column_aborts Samples.loads Samples.float_str Samples.plt 0
              Samples.l_bare (Samples.with_data [Samples.e_no_liquidity])
              [Samples.e_no_liquidity] [Samples.l_one] Samples.empty_world
              "liquidity")
    as (fig & e & k0 & _ & E & _ & _ & _ & _ & _ & He).
  - vm_compute. reflexivity.
  - reflexivity.
  - discriminate.
  - left. reflexivity.
  - reflexivity.
  - rewrite E, (He eq_refl). reflexivity.
Defined.

(** * Further properties of the script *)

(** ** The pattern of a JSON line *)

Local Arguments String.append : simpl nomatch.

Lemma sapp_assoc (a b c : string) : (a +:+ b) +:+ c = a +:+ (b +:+ c).
Proof. induction a as [|x a IH]; simpl; [|rewrite IH]; reflexivity. Qed.

Lemma sapp_nil_r (a : string) : a +:+ EmptyString = a.
Proof. induction a as [|x a IH]; simpl; [|rewrite IH]; reflexivity. Qed.

Lemma sapp_eq_nil (a b : string) :
  a +:+ b = EmptyString -> a = EmptyString /\ b = EmptyString.
Proof. destruct a; simpl; [auto | discriminate]. Qed.

Lemma sapp_eq_cons (a b : string) (c : ascii) (s : string) :
  a +:+ b = String c s ->
  (a = EmptyString /\ b = String c s) \/
  (exists a', a = String c a' /\ s = a' +:+ b).
Proof.
  destruct a as [|x a]; simpl; intros H.
  - now left.
  - injection H as -> <-. right. eauto.
Qed.

Lemma nullable_matches (r : Re.regex) (rest : string) :
  Re.nullable rest r = true <-> matches r EmptyString rest.
Proof.
  split.
  - induction r as [| | |p|r1 IH1 r2 IH2|r1 IH1 r2 IH2|r IH]; simpl; intros H;
      try discriminate.
    + constructor.
    + destruct rest as [|c [|]]; try discriminate; [constructor|].
      apply Ascii.eqb_eq in H as ->. constructor.
    + apply andb_true_iff in H as [H1 H2].
      change EmptyString with (EmptyString +:+ EmptyString).
      constructor; simpl; auto.
    + apply orb_true_iff in H as [H|H];
        [apply M_alt_l | apply M_alt_r]; auto.
    + constructor.
  - intros H. remember EmptyString as s eqn:Hs.
    induction H as [rest| | |p c rest Hp|r1 r2 s1 s2 rest _ IH1 _ IH2
                   |r1 r2 s rest _ IH|r1 r2 s rest _ IH|r rest
                   |r s1 s2 rest _ _ _ _]; simpl; auto; try discriminate.
    + apply sapp_eq_nil in Hs as [-> ->].
      simpl in IH1. rewrite IH1, IH2; auto.
    + rewrite IH; auto.
    + rewrite IH; auto using orb_true_r.
Qed.

Lemma deriv_sound (r : Re.regex) (c : ascii) (s rest : string) :
  matches (Re.deriv c (s +:+ rest) r) s rest -> matches r (String c s) rest.
Proof.
  revert s rest.
  induction r as [| | |p|r1 IH1 r2 IH2|r1 IH1 r2 IH2|r IH]; simpl;
    intros s rest H; try (inversion H; fail).
  - destruct (p c) eqn:Hp; inversion H; subst. now constructor.
  - assert (Hcat : forall s', matches (Re.Cat (Re.deriv c (s' +:+ rest) r1) r2)
                       s' rest -> matches (Re.Cat r1 r2) (String c s') rest).
    { intros s' H'. inversion H' as [| | | |? ? s1 s2 ? H1 H2| | | |]; subst.
      change (String c (s1 +:+ s2)) with (String c s1 +:+ s2).
      constructor; [|assumption].
      apply IH1. now rewrite <- sapp_assoc. }
    destruct (Re.nullable (String c (s +:+ rest)) r1) eqn:Hn.
    + inversion H; subst; [now apply Hcat|].
      change (String c s) with (EmptyString +:+ String c s).
      constructor; [|now apply IH2].
      apply nullable_matches. exact Hn.
    + now apply Hcat.
  - inversion H; subst; [apply M_alt_l | apply M_alt_r]; auto.
  - inversion H as [| | | |? ? s1 s2 ? H1 H2| | | |]; subst.
    change (String c (s1 +:+ s2)) with (String c s1 +:+ s2).
    constructor; [|assumption].
    apply IH. now rewrite <- sapp_assoc.
Qed.

Lemma deriv_complete (r : Re.regex) (c : ascii) (s rest : string) :
  matches r (String c s) rest -> matches (Re.deriv c (s +:+ rest) r) s rest.
Proof.
  intros H. remember (String c s) as cs eqn:Hcs. revert s Hcs.
  induction H as [rest| | |p x rest Hp|r1 r2 s1 s2 rest H1 IH1 H2 IH2
                 |r1 r2 s0 rest _ IH|r1 r2 s0 rest _ IH|r rest
                 |r s1 s2 rest H1 IH1 H2 IH2]; intros s Hcs;
    try discriminate.
  - injection Hcs as -> <-. simpl. rewrite Hp. constructor.
  - simpl. apply sapp_eq_cons in Hcs as [[-> ->] | (a' & -> & ->)].
    + apply nullable_matches in H1. simpl in H1. rewrite H1.
      apply M_alt_r. now apply IH2.
    + assert (Hl : matches (Re.Cat (Re.deriv c ((a' +:+ s2) +:+ rest) r1) r2)
                     (a' +:+ s2) rest).
      { constructor; [|assumption]. rewrite sapp_assoc. now apply IH1. }
      destruct (Re.nullable _ r1); [apply M_alt_l|]; exact Hl.
  - simpl. apply M_alt_l. now apply IH.
  - simpl. apply M_alt_r. now apply IH.
  - apply sapp_eq_cons in Hcs as [[-> ->] | (a' & -> & ->)].
    + now apply IH2.
    + simpl. constructor; [|assumption].
      rewrite sapp_assoc. now apply IH1.
Qed.

Lemma re_match_spec (r : Re.regex) (s : string) :
  Re.re_match r s = true <->
  exists s1 s2, s = s1 +:+ s2 /\ matches r s1 s2.
Proof.
  revert r. induction s as [|c s IH]; intros r; simpl.
  - rewrite orb_false_r, nullable_matches. split.
    + intros H. now exists EmptyString, EmptyString.
    + intros (s1 & s2 & Hs & H). symmetry in Hs.
      apply sapp_eq_nil in Hs as [-> ->]. exact H.
  - rewrite orb_true_iff, nullable_matches, IH. split.
    + intros [H | (s1 & s2 & -> & H)].
      * now exists EmptyString, (String c s).
      * exists (String c s1), s2. split; [reflexivity|].
        now apply deriv_sound.
    + intros (s1 & s2 & Hs & H). symmetry in Hs.
      apply sapp_eq_cons in Hs as [[-> ->] | (a' & -> & ->)].
      * now left.
      * right. exists a', s2. split; [reflexivity|].
        now apply deriv_complete.
Qed.

Lemma all_chars_app (p : ascii -> bool) (a b : string) :
  all_chars p (a +:+ b) = all_chars p a && all_chars p b.
Proof.
  induction a as [|x a IH]; simpl; [reflexivity|].
  now rewrite IH, andb_assoc.
Qed.

Lemma star_class_matches (p : ascii -> bool) (s rest : string) :
  matches (Re.Star (Re.Class p)) s rest <-> all_chars p s = true.
Proof.
  split.
  - intros H. remember (Re.Star (Re.Class p)) as r eqn:Hr.
    induction H as [| | | | | | | |r s1 s2 rest H1 _ H2 IH2];
      try discriminate; [reflexivity|].
    injection Hr as ->. inversion H1; subst. simpl.
    apply andb_true_iff. auto.
  - revert rest. induction s as [|c s IH]; simpl; intros rest H.
    + constructor.
    + apply andb_true_iff in H as [Hc Hs].
      change (String c s) with (String c EmptyString +:+ s).
      constructor; [now constructor | auto].
Qed.

Lemma lit_matches (c : ascii) (s rest : string) :
  matches (Re.lit c) s rest <-> s = String c EmptyString.
Proof.
  unfold Re.lit. split.
  - intros H. inversion H as [| | |? x ? Hx| | | | |]; subst.
    apply Ascii.eqb_eq in Hx. now subst.
  - intros ->. constructor. apply Ascii.eqb_refl.
Qed.

Lemma json_line_iff (line : string) :
  is_json_line line = true <->
  exists ws mid ws',
    line = ws +:+ "{" +:+ mid +:+ "}" +:+ ws' /\
    all_chars Text.is_space ws = true /\
    all_chars not_newline mid = true /\
    all_chars Text.is_space ws' = true.
Proof.
  unfold is_json_line. rewrite re_match_spec. unfold json_line_re. split.
  - intros (s1 & s2 & -> & H).
    inversion H as [| | | |? ? ws t1 ? Hws H1| | | |]; subst. clear H.
    inversion H1 as [| | | |? ? b t2 ? Hb H2| | | |]; subst. clear H1.
    inversion H2 as [| | | |? ? mid t3 ? Hmid H3| | | |]; subst. clear H2.
    inversion H3 as [| | | |? ? d t4 ? Hd H4| | | |]; subst. clear H3.
    inversion H4 as [| | | |? ? ws' t5 ? Hws' H5| | | |]; subst. clear H4.
    apply star_class_matches in Hws, Hmid, Hws'.
    apply lit_matches in Hb, Hd. subst b d.
    exists ws, mid, (ws' +:+ s2).
    rewrite all_chars_app, Hws'. repeat split; auto.
    + inversion H5; subst; now rewrite !sapp_assoc, ?sapp_nil_r.
    + inversion H5; subst; reflexivity.
  - intros (ws & mid & ws' & -> & Hws & Hmid & Hws').
    exists (ws +:+ "{" +:+ mid +:+ "}" +:+ ws'), EmptyString.
    split; [now rewrite sapp_nil_r|].
    constructor; [now apply star_class_matches|].
    constructor; [now apply lit_matches|].
    constructor; [now apply star_class_matches|].
    constructor; [now apply lit_matches|].
    rewrite <- (sapp_nil_r ws').
    constructor; [now apply star_class_matches | constructor].
Qed.

(** X1. A line is taken for a JSON line exactly when it consists of
    whitespace, an opening brace, any text without a newline, a closing
    brace, and whitespace up to its end. *)
Theorem json_line_shape (line : string) :
  is_json_line line = true <->
  exists ws mid ws',
    line = ws +:+ "{" +:+ mid +:+ "}" +:+ ws' /\
    all_chars Text.is_space ws = true /\
    all_chars not_newline mid = true /\
    all_chars Text.is_space ws' = true.
Proof. exact (json_line_iff line). Qed.

(** ** Stripping *)

Lemma all_space_iff (s : string) :
  Text.all_space s = true <-> all_chars Text.is_space s = true.
Proof.
  unfold Text.all_space. induction s as [|c s IH]; simpl.
  - tauto.
  - destruct (Text.is_space c); simpl; [exact IH|].
    split; discriminate.
Qed.

Lemma lstrip_spaces (ws : string) (c : ascii) (s : string) :
  all_chars Text.is_space ws = true -> Text.is_space c = false ->
  Text.lstrip (ws +:+ String c s) = String c s.
Proof.
  intros Hws Hc. induction ws as [|x ws IH]; simpl in *.
  - now rewrite Hc.
  - apply andb_true_iff in Hws as [-> Hws]. auto.
Qed.

Lemma rstrip_spaces (s : string) :
  all_chars Text.is_space s = true -> Text.rstrip s = EmptyString.
Proof.
  intros H. destruct s as [|c s]; [reflexivity|].
  simpl. apply all_space_iff in H. now rewrite H.
Qed.

Lemma rstrip_keep (a : string) (c : ascii) (ws : string) :
  Text.is_space c = false -> all_chars Text.is_space ws = true ->
  Text.rstrip (a +:+ String c ws) = a +:+ String c EmptyString.
Proof.
  intros Hc Hws.
  assert (Hns : forall b, Text.all_space (b +:+ String c ws) = false).
  { intros b. destruct (Text.all_space _) eqn:E; [|reflexivity].
    apply all_space_iff in E. rewrite all_chars_app in E. simpl in E.
    rewrite Hc, andb_false_r in E. discriminate. }
  induction a as [|x a IH].
  - change (EmptyString +:+ String c ws) with (String c ws).
    change (Text.rstrip (String c ws))
      with (if Text.all_space (String c ws) then EmptyString
            else String c (Text.rstrip ws)).
    pose proof (Hns EmptyString) as H0. simpl in H0.
    rewrite H0, rstrip_spaces by assumption. reflexivity.
  - change (Text.rstrip (String x a +:+ String c ws))
      with (if Text.all_space (String x a +:+ String c ws) then EmptyString
            else String x (Text.rstrip (a +:+ String c ws))).
    rewrite (Hns (String x a)), IH. reflexivity.
Qed.

Lemma strip_json_line (ws mid ws' : string) :
  all_chars Text.is_space ws = true ->
  all_chars Text.is_space ws' = true ->
  Text.strip (ws +:+ "{" +:+ mid +:+ "}" +:+ ws') = "{" +:+ mid +:+ "}".
Proof.
  intros Hws Hws'. unfold Text.strip.
  change ("{" +:+ mid +:+ "}" +:+ ws')
    with (String "{" (mid +:+ String "}" ws')).
  rewrite lstrip_spaces by (assumption || reflexivity).
  change (String "{" (mid +:+ String "}" ws'))
    with (String "{" mid +:+ String "}" ws').
  rewrite rstrip_keep by (assumption || reflexivity).
  reflexivity.
Qed.

(** X2. Every line of the collected block starts with an opening brace and
    ends with a closing brace, with no newline between them: the whitespace
    around it is gone. *)
Theorem collected_lines_shape (lines : list string) :
  Forall (fun l => exists mid,
            l = "{" +:+ mid +:+ "}" /\ all_chars not_newline mid = true)
    (collect_json lines).
Proof.
  induction lines as [|line lines IH]; simpl; [constructor|].
  destruct (is_json_line line) eqn:Hl; [|constructor].
  constructor; [|exact IH].
  apply json_line_iff in Hl as (ws & mid & ws' & -> & Hws & Hmid & Hws').
  exists mid. split; [|exact Hmid]. now apply strip_json_line.
Qed.

(** ** Finding the marker *)

Lemma prefix_spec (n h : string) :
  String.prefix n h = true <-> exists b, h = n +:+ b.
Proof.
  revert h. induction n as [|x n IH]; intros h.
  - split; [exists h; reflexivity | intros _; destruct h; reflexivity].
  - destruct h as [|y h]; simpl;
      [split; [discriminate | intros (b & [=])]|].
    destruct (ascii_dec x y) as [<-|Hne].
    + rewrite IH. split; intros (b & E); exists b; congruence.
    + split; [discriminate | intros (b & [= ? _]); congruence].
Qed.

Lemma contains_spec (needle hay : string) :
  Text.contains needle hay = true <->
  exists a b, hay = a +:+ needle +:+ b.
Proof.
  induction hay as [|c hay IH].
  - change (Text.contains needle EmptyString)
      with (String.prefix needle EmptyString || false).
    rewrite orb_false_r, prefix_spec. split.
    + intros (b & E). now exists EmptyString, b.
    + intros (a & b & E). symmetry in E.
      apply sapp_eq_nil in E as [-> E]. eauto.
  - change (Text.contains needle (String c hay))
      with (String.prefix needle (String c hay) || Text.contains needle hay).
    rewrite orb_true_iff, prefix_spec, IH. split.
    + intros [(b & E) | (a & b & ->)].
      * now exists EmptyString, b.
      * now exists (String c a), b.
    + intros (a & b & E). destruct a as [|x a]; simpl in E.
      * left. eauto.
      * injection E as <- ->. right. eauto.
Qed.

Lemma find_logs_from_sound (lines : list string) (start idx : nat) :
  find_logs_from start lines = Some idx ->
  exists pre marker post,
    lines = pre ++ marker :: post /\ idx = (start + length pre)%nat /\
    Forall (fun l => Text.contains "Logs:" l = false) pre /\
    Text.contains "Logs:" marker = true.
Proof.
  revert start. induction lines as [|l lines IH]; intros start; simpl.
  - discriminate.
  - destruct (Text.contains "Logs:" l) eqn:Hl.
    + intros [= <-]. exists [], l, lines. simpl. rewrite Nat.add_0_r. auto.
    + intros H. apply IH in H as (pre & marker & post & -> & -> & Hpre & Hm).
      exists (l :: pre), marker, post. simpl.
      repeat split; auto; lia.
Qed.

(** X3. [logs_index] gives the position of the first line that has [Logs:]
    as a substring: the line at the index has it, no line before has it, and
    the index lies within the input. *)
Theorem logs_index_first_marker (lines : list string) (idx : nat) :
  logs_index lines = Some idx <->
  (exists marker a b,
     lines !! idx = Some marker /\ marker = a +:+ "Logs:" +:+ b) /\
  (forall j l a b,
     j < idx -> lines !! j = Some l -> l <> a +:+ "Logs:" +:+ b).
Proof.
  split.
  - intros H. apply find_logs_from_sound in H
      as (pre & marker & post & -> & -> & Hpre & Hm). simpl. split.
    + apply contains_spec in Hm as (a & b & ->).
      exists (a +:+ "Logs:" +:+ b), a, b. split; [|reflexivity].
      now rewrite lookup_app_r, Nat.sub_diag by lia.
    + intros j l a b Hj Hl ->.
      rewrite lookup_app_l in Hl by assumption.
      rewrite Forall_lookup in Hpre. specialize (Hpre j _ Hl).
      assert (Hc : Text.contains "Logs:" (a +:+ "Logs:" +:+ b) = true)
        by (apply contains_spec; eauto).
      simpl in Hc. rewrite Hc in Hpre. discriminate.
  - intros [(marker & a & b & Hm & ->) Hbefore].
    assert (Hlt : idx < length lines) by (eapply lookup_lt_Some; eauto).
    rewrite <- (take_drop_middle lines idx _ Hm).
    replace idx with (length (take idx lines)) at 3
      by (rewrite length_take; lia).
    apply logs_index_first.
    + apply Forall_lookup. intros j l Hl.
      assert (Hj : j < idx).
      { apply lookup_lt_Some in Hl. rewrite length_take in Hl. lia. }
      rewrite lookup_take_lt in Hl by assumption.
      destruct (Text.contains "Logs:" l) eqn:Hc; [|reflexivity].
      apply contains_spec in Hc as (a' & b' & ->).
      now destruct (Hbefore j _ a' b' Hj Hl).
    + apply contains_spec. eauto.
Qed.

(** ** Splitting the input into lines *)

Lemma splitlines_line (l rest : string) :
  all_chars no_linebreak l = true ->
  Text.splitlines (l +:+ String Text.LF rest) = l :: Text.splitlines rest.
Proof.
  intros Hl. induction l as [|x l IH].
  - destruct rest; reflexivity.
  - simpl in Hl. apply andb_true_iff in Hl as [Hx Hl].
    unfold no_linebreak in Hx. apply negb_true_iff in Hx.
    simpl. rewrite Hx, (IH Hl). reflexivity.
Qed.

Lemma splitlines_line_crlf (l rest : string) :
  all_chars no_linebreak l = true ->
  Text.splitlines (l +:+ String Text.CR (String Text.LF rest))
  = l :: Text.splitlines rest.
Proof.
  intros Hl. induction l as [|x l IH].
  - reflexivity.
  - simpl in Hl. apply andb_true_iff in Hl as [Hx Hl].
    unfold no_linebreak in Hx. apply negb_true_iff in Hx.
    simpl. rewrite Hx, (IH Hl). reflexivity.
Qed.

(** X4. Splitting undoes joining: for lines without line-break characters,
    each ended by a newline or each by a carriage return and a newline, the
    script reads back exactly these lines, and so runs on them. *)
Theorem splitlines_join (json_loads : string -> parsed)
    (float_str : Num.float -> string) (plt : backend) (eol : string)
    (ls : list string) (w : world) :
  eol = String Text.LF EmptyString \/
  eol = String Text.CR (String Text.LF EmptyString) ->
  Forall (fun l => all_chars no_linebreak l = true) ls ->
  Text.splitlines (join_lines eol ls) = ls /\
  main json_loads float_str plt (join_lines eol ls) w
  = run_lines json_loads float_str plt ls w.
Proof.
  intros Heol Hls.
  assert (E : Text.splitlines (join_lines eol ls) = ls).
  { induction Hls as [|l ls Hl _ IH]; [reflexivity|].
    simpl. destruct Heol as [-> | ->]; simpl.
    - rewrite splitlines_line by assumption. now rewrite IH by auto.
    - rewrite splitlines_line_crlf by assumption. now rewrite IH by auto. }
  split; [exact E|]. unfold main. now rewrite E.
Qed.

Lemma splitlines_join_witness :
  Text.splitlines
    (join_lines (String Text.LF EmptyString) ["Logs:"; Samples.l_one])
  = ["Logs:"; Samples.l_one].
Proof.
  apply (splitlines_join Samples.loads Samples.float_str Samples.plt
           (String Text.LF EmptyString) ["Logs:"; Samples.l_one]
           Samples.empty_world).
  - left. reflexivity.
  - repeat constructor.
Defined.

(** ** Complete records are rendered *)

Lemma complete_fields (e : slug_entry) :
  complete e = true ->
  tickLower e = Some (lower e) /\ tickUpper e = Some (upper e) /\
  slugName e = Some (name_of e) /\ exists n, liquidity e = Some n.
Proof.
  unfold complete, lower, upper, name_of.
  destruct (tickLower e), (tickUpper e), (liquidity e), (slugName e);
    simpl; try discriminate; eauto.
Qed.

Lemma int_column (f : slug_entry -> Z) (slugs : list slug_entry) :
  infer_column (map (fun e => Some (SNum (NInt (f e)))) slugs)
  = map (fun e => CInt (f e)) slugs.
Proof.
  unfold infer_column, coerce.
  assert (Hs : existsb is_str (map (fun e => Some (SNum (NInt (f e)))) slugs)
               = false) by (induction slugs; simpl; auto).
  assert (Hi : forallb is_int (map (fun e => Some (SNum (NInt (f e)))) slugs)
               = true) by (induction slugs; simpl; auto).
  rewrite Hs, Hi, map_map. reflexivity.
Qed.

Lemma str_column (f : slug_entry -> string) (slugs : list slug_entry) :
  infer_column (map (fun e => Some (SStr (f e))) slugs)
  = map (fun e => CStr (f e)) slugs.
Proof.
  unfold infer_column. rewrite map_map.
  destruct (coerce_cases (map (fun e => Some (SStr (f e))) slugs)) as [-> | ->];
    reflexivity.
Qed.

Lemma complete_columns (slugs : list slug_entry) :
  Forall (fun e => complete e = true) slugs ->
  raw_column "tickLower" slugs
  = map (fun e => Some (SNum (NInt (lower e)))) slugs /\
  raw_column "tickUpper" slugs
  = map (fun e => Some (SNum (NInt (upper e)))) slugs /\
  raw_column "slugName" slugs
  = map (fun e => Some (SStr (name_of e))) slugs.
Proof.
  unfold raw_column. intros H.
  repeat split; apply map_ext_Forall; eapply Forall_impl; eauto;
    intros e He; apply complete_fields in He as (Hl & Hu & Hn & _).
  - change (field "tickLower" e)
      with ((fun z => SNum (NInt z)) <$> tickLower e). now rewrite Hl.
  - change (field "tickUpper" e)
      with ((fun z => SNum (NInt z)) <$> tickUpper e). now rewrite Hu.
  - change (field "slugName" e) with (SStr <$> slugName e). now rewrite Hn.
Qed.

Lemma complete_has_column (k : string) (e : slug_entry)
    (es : list slug_entry) :
  complete e = true -> In k mandatory -> has_column k (e :: es) = true.
Proof.
  intros He Hk. apply complete_fields in He as (Hl & Hu & Hn & n & Hq).
  unfold has_column, raw_column. simpl in Hk.
  destruct Hk as [<-|[<-|[<-|[<-|[]]]]]; simpl.
  - change (field "liquidity" e) with (SNum <$> liquidity e).
    now rewrite Hq.
  - change (field "tickLower" e)
      with ((fun z => SNum (NInt z)) <$> tickLower e). now rewrite Hl.
  - change (field "tickUpper" e)
      with ((fun z => SNum (NInt z)) <$> tickUpper e). now rewrite Hu.
  - change (field "slugName" e) with (SStr <$> slugName e). now rewrite Hn.
Qed.

Lemma traverse_map_ok {A B C} (f : B -> exn + C) (g : A -> B) (h : A -> C)
    (l : list A) :
  Forall (fun a => f (g a) = inr (h a)) l ->
  traverse f (map g l) = inr (map h l).
Proof.
  induction 1 as [|a l Ha _ IH]; simpl; [reflexivity|].
  now rewrite Ha, IH.
Qed.

Lemma scale_ok (conv : option scalar -> cell) (e : slug_entry) :
  conv = object_cell \/ conv = float_cell ->
  is_Some (liquidity e) -> Num.is_inf (raw_liquidity e) = false ->
  scale_cell (conv (field "liquidity" e)) = inr (CFloat (scaled_liquidity e)).
Proof.
  unfold scaled_liquidity, raw_liquidity.
  change (field "liquidity" e) with (SNum <$> liquidity e).
  intros [-> | ->] [n ->]; destruct n as [z|f]; simpl; intros Hinf;
    try rewrite Hinf; reflexivity.
Qed.

Lemma scale_liquidity_complete (e : slug_entry) (es : list slug_entry) :
  Forall (fun e => complete e = true) (e :: es) ->
  Forall (fun e => Num.is_inf (raw_liquidity e) = false) (e :: es) ->
  scale_liquidity (DataFrame (e :: es))
  = inr {| n_rows := length (e :: es);
           columns := <["liquidity" :=
                         map (fun e => CFloat (scaled_liquidity e)) (e :: es)]>
                        (columns (DataFrame (e :: es))) |}.
Proof.
  intros Hc Hinf. unfold scale_liquidity, getitem.
  rewrite DataFrame_lookup by (unfold keys; simpl; tauto).
  rewrite complete_has_column
    by (try (now inversion Hc); unfold mandatory; simpl; tauto).
  unfold infer_column, raw_column. rewrite map_map.
  rewrite (traverse_map_ok _ _ (fun e => CFloat (scaled_liquidity e))).
  - reflexivity.
  - rewrite Forall_forall in Hc, Hinf. apply Forall_forall. intros x Hx.
    apply scale_ok; [apply coerce_cases | | now apply Hinf].
    destruct (complete_fields x (Hc x Hx)) as (_ & _ & _ & n & ->). eauto.
Qed.

Lemma nanmax_not_inf (fl : list Num.float) :
  Forall (fun f => Num.is_inf f = false) fl ->
  Num.is_inf (Num.nanmax fl) = false.
Proof.
  unfold Num.nanmax.
  assert (H : forall acc, Num.is_inf acc = false ->
            Forall (fun f => Num.is_inf f = false) fl ->
            Num.is_inf (fold_left Num.fmax fl acc) = false).
  { induction fl as [|f fl IH]; simpl; intros acc Hacc Hfl; [exact Hacc|].
    inversion Hfl; subst. apply IH; [|assumption].
    unfold Num.fmax. destruct (Num.is_nan acc); [assumption|].
    destruct (SFltb acc f); assumption. }
  now apply H.
Qed.

Lemma finite_ylim_top (m : Num.float) :
  Num.is_inf m = false -> finite_y (ylim_top m) = true.
Proof.
  intros Hm. unfold ylim_top.
  destruct (Num.is_pos m) eqn:Hp; simpl; [|reflexivity].
  rewrite Hm, orb_false_r. destruct m; try reflexivity; discriminate.
Qed.

Section CompleteRecords.

Variable float_str : Num.float -> string.

Lemma draw_row_complete (row : gmap string cell) (e : slug_entry) :
  row !! "tickLower" = Some (CInt (lower e)) ->
  row !! "tickUpper" = Some (CInt (upper e)) ->
  row !! "liquidity" = Some (CFloat (scaled_liquidity e)) ->
  row !! "slugName" = Some (CStr (name_of e)) ->
  draw_row float_str row = (entry_calls float_str e, inr tt).
Proof.
  intros Hl Hu Hq Hn. unfold draw_row, row_get.
  rewrite Hl, Hu, Hq, Hn. unfold entry_calls, height_of. simpl.
  destruct (Num.is_pos (scaled_liquidity e)); reflexivity.
Qed.

Lemma draw_rows_complete (rows : list (gmap string cell))
    (slugs : list slug_entry) :
  Forall2 (fun row e =>
             draw_row float_str row = (entry_calls float_str e, inr tt))
    rows slugs ->
  draw_rows float_str rows
  = (flat_map (entry_calls float_str) slugs, inr tt).
Proof.
  induction 1 as [|row e rows slugs Hrow _ IH]; [reflexivity|].
  simpl draw_rows. rewrite Hrow, IH. reflexivity.
Qed.

Lemma col_max_ints (z : Z) (zs : list Z) :
  col_max (map CInt (z :: zs)) = inr (CInt (fold_left Z.max zs z)) /\
  col_min (map CInt (z :: zs)) = inr (CInt (fold_left Z.min zs z)).
Proof.
  assert (H : forall l, all_ints (map CInt l) = Some l).
  { induction l as [|x l IH]; simpl; [|rewrite IH]; reflexivity. }
  unfold col_max, col_min. now rewrite H.
Qed.

Lemma rows_complete (df : frame) (slugs : list slug_entry) :
  n_rows df = length slugs ->
  columns df !! "tickLower" = Some (map (fun e => CInt (lower e)) slugs) ->
  columns df !! "tickUpper" = Some (map (fun e => CInt (upper e)) slugs) ->
  columns df !! "liquidity"
  = Some (map (fun e => CFloat (scaled_liquidity e)) slugs) ->
  columns df !! "slugName" = Some (map (fun e => CStr (name_of e)) slugs) ->
  draw_rows float_str (iterrows df)
  = (flat_map (entry_calls float_str) slugs, inr tt).
Proof.
  intros Hn Hlo Hup Hlq Hnm.
  apply draw_rows_complete.
  apply Forall2_same_length_lookup_2; [now rewrite iterrows_length|].
  intros i row x Hrow Hx.
  apply draw_row_complete;
    rewrite (iterrows_lookup df i row _ Hrow), ?Hlo, ?Hup, ?Hlq, ?Hnm;
    simpl; rewrite list_lookup_fmap, Hx; reflexivity.
Qed.

(** The figure the script draws for a complete record. *)
Lemma render_complete (e : slug_entry) (es : list slug_entry) :
  Forall (fun e => complete e = true) (e :: es) ->
  has_column "currentTick" (e :: es) = true ->
  Forall (fun e => Num.is_inf (raw_liquidity e) = false) (e :: es) ->
  Forall (fun e => Num.is_inf (scaled_liquidity e) = false) (e :: es) ->
  render float_str (e :: es)
  = (figure float_str (e :: es), inr (metadata "timestamp" (e :: es))).
Proof.
  intros Hc Hct Hraw Hsc.
  set (slugs := e :: es) in *.
  set (scaled := map (fun e => CFloat (scaled_liquidity e)) slugs).
  set (df := {| n_rows := length slugs;
                columns := <["liquidity" := scaled]>
                             (columns (DataFrame slugs)) |}).
  assert (Hdf : scale_liquidity (DataFrame slugs) = inr df)
    by now apply scale_liquidity_complete.
  assert (Hcols : columns df
                  = <["liquidity" := scaled]> (columns (DataFrame slugs)))
    by reflexivity.
  assert (Hk : forall k, In k keys -> k <> "liquidity" ->
            columns df !! k
            = if has_column k slugs
              then Some (infer_column (raw_column k slugs)) else None).
  { intros k. now apply scaled_lookup with (scaled := scaled). }
  destruct (complete_columns slugs Hc) as (Rl & Ru & Rn).
  assert (He : complete e = true) by now inversion Hc.
  assert (Hlo : columns df !! "tickLower"
                = Some (map (fun e => CInt (lower e)) slugs)).
  { rewrite Hk by (unfold keys; simpl; tauto || discriminate).
    unfold slugs at 1.
    rewrite complete_has_column by (auto; unfold mandatory; simpl; tauto).
    now rewrite Rl, int_column. }
  assert (Hup : columns df !! "tickUpper"
                = Some (map (fun e => CInt (upper e)) slugs)).
  { rewrite Hk by (unfold keys; simpl; tauto || discriminate).
    unfold slugs at 1.
    rewrite complete_has_column by (auto; unfold mandatory; simpl; tauto).
    now rewrite Ru, int_column. }
  assert (Hnm : columns df !! "slugName"
                = Some (map (fun e => CStr (name_of e)) slugs)).
  { rewrite Hk by (unfold keys; simpl; tauto || discriminate).
    unfold slugs at 1.
    rewrite complete_has_column by (auto; unfold mandatory; simpl; tauto).
    now rewrite Rn, str_column. }
  assert (Hlq : columns df !! "liquidity" = Some scaled)
    by (rewrite Hcols; apply lookup_insert_eq).
  assert (Hts : first_or_none df "timestamp"
                = inr (metadata "timestamp" slugs)).
  { unfold first_or_none, metadata.
    rewrite Hk by (unfold keys; simpl; tauto || discriminate).
    unfold slugs. destruct (has_column "timestamp" (e :: es)); reflexivity. }
  assert (Hcur : first_or_none df "currentTick"
                 = inr (metadata "currentTick" slugs)).
  { unfold first_or_none, metadata.
    rewrite Hk by (unfold keys; simpl; tauto || discriminate).
    unfold slugs. destruct (has_column "currentTick" (e :: es)); reflexivity. }
  assert (Hrows : draw_rows float_str (iterrows df)
                  = (flat_map (entry_calls float_str) slugs, inr tt)).
  { now apply rows_complete. }
  assert (Hmax : col_max (map (fun e => CInt (upper e)) slugs)
                 = inr (CInt (max_upper slugs))).
  { unfold slugs, max_upper. rewrite <- (map_map upper CInt).
    apply col_max_ints. }
  assert (Hmin : col_min (map (fun e => CInt (lower e)) slugs)
                 = inr (CInt (min_lower slugs))).
  { unfold slugs, min_lower. rewrite <- (map_map lower CInt).
    apply col_max_ints. }
  assert (Hml : col_max scaled
                = inr (CFloat (Num.nanmax (map scaled_liquidity slugs)))).
  { unfold scaled. rewrite <- (map_map scaled_liquidity CFloat).
    apply col_max_floats. }
  assert (Hm : metadata "currentTick" slugs
               = Some (coerce (raw_column "currentTick" slugs)
                         (field "currentTick" e))).
  { unfold metadata. unfold slugs in Hct |- *. now rewrite Hct. }
  unfold render, getitem, figure.
  rewrite Hdf, bind_lift_ok, Hts, bind_lift_ok, Hcur, bind_lift_ok.
  apply bind_emit_ok.
  rewrite Hlq, Hml, bind_lift_ok, Hup, Hmax, bind_lift_ok, Hlo, Hmin,
    bind_lift_ok.
  eapply bind_app_ok; [exact Hrows|].
  rewrite Hm. apply bind_emit_ok.
  cbn [np_sub np_add]. rewrite !bind_lift_ok.
  unfold set_xlim. cbn [finite_cell andb]. apply bind_emit_ok.
  cbn [cell_gt0]. rewrite bind_lift_ok.
  change (if Num.is_pos ?m then YTimes (YLog (CFloat ?m)) Num.f1_1 else YInt 1)
    with (ylim_top m).
  unfold set_ylim.
  rewrite finite_ylim_top
    by (apply nanmax_not_inf; now rewrite Forall_map).
  repeat apply bind_emit_ok. reflexivity.
Qed.

End CompleteRecords.

Section CompleteRecordTheorems.

Variable float_str : Num.float -> string.
Variable plt : backend.

(** X5. A record whose entries all carry the four mandatory keys, with ticks
    that are 64-bit integers, a current tick in some entry and liquidities
    that stay finite, is always drawn completely: the figure has one
    rectangle and one label per entry, in input order, the marker line, both
    axis limits, the axis labels, the title, the legend and the grid.  It is
    saved under the name built from the timestamp or the index when
    [plt.savefig] succeeds, and then the file that name denotes holds the
    figure; when [plt.savefig] raises, the record raises that exception and
    the run ends there. *)
Theorem complete_record_saved (i : nat) (r : record) (e : slug_entry)
    (es : list slug_entry) :
  rec_data r = Some (e :: es) ->
  Forall (fun e => complete e = true) (e :: es) ->
  Forall (fun e => Num.int64 (lower e) && Num.int64 (upper e) = true)
    (e :: es) ->
  has_column "currentTick" (e :: es) = true ->
  Forall (fun e => Num.is_inf (raw_liquidity e) = false) (e :: es) ->
  Forall (fun e => Num.is_inf (scaled_liquidity e) = false) (e :: es) ->
  let name := filename float_str i (metadata "timestamp" (e :: es)) in
  let fig := figure float_str (e :: es) in
  render float_str (e :: es) = (fig, inr (metadata "timestamp" (e :: es))) /\
  process_record float_str plt i r
  = match savefig_result plt name fig with
    | inr _ => Saved name fig
    | inl err => Raised fig err
    end /\
  (forall file w,
     savefig_result plt name fig = inr file ->
     process_record float_str plt i r = Saved name fig /\
     files (savefig plt name fig w) !! file = Some fig) /\
  (forall err json_loads l rest w,
     savefig_result plt name fig = inl err ->
     json_loads l = Parsed r ->
     run_records json_loads float_str plt i (l :: rest) w
     = (w, Traceback err)).
Proof.
  intros Hd Hc _ Hct Hraw Hsc name fig.
  assert (Hr : render float_str (e :: es)
               = (fig, inr (metadata "timestamp" (e :: es))))
    by now apply render_complete.
  assert (Hp : process_record float_str plt i r
               = match savefig_result plt name fig with
                 | inr _ => Saved name fig
                 | inl err => Raised fig err
                 end).
  { unfold process_record. rewrite Hd, Hr. reflexivity. }
  split; [exact Hr|]. split; [exact Hp|]. split.
  - intros file w Hs. rewrite Hp, Hs. split; [reflexivity|].
    unfold savefig. rewrite Hs. simpl. apply lookup_insert_eq.
  - intros err json_loads l rest w Hs Hl. simpl.
    unfold process_line. rewrite Hl, Hp, Hs. reflexivity.
Qed.

Lemma fold_max_acc (l : list Z) (b z : Z) :
  (z <= b)%Z -> (z <= fold_left Z.max l b)%Z.
Proof.
  revert b. induction l as [|x l IH]; simpl; intros b Hz; [exact Hz|].
  apply IH. lia.
Qed.

Lemma fold_min_acc (l : list Z) (b z : Z) :
  (b <= z)%Z -> (fold_left Z.min l b <= z)%Z.
Proof.
  revert b. induction l as [|x l IH]; simpl; intros b Hz; [exact Hz|].
  apply IH. lia.
Qed.

Lemma fold_max_bound (l : list Z) (a z : Z) :
  z = a \/ In z l -> (z <= fold_left Z.max l a)%Z.
Proof.
  revert a. induction l as [|x l IH]; simpl; intros a Hz.
  - destruct Hz as [-> | []]. lia.
  - destruct Hz as [-> | [-> | Hz]].
    + apply fold_max_acc. lia.
    + apply fold_max_acc. lia.
    + apply IH. now right.
Qed.

Lemma fold_min_bound (l : list Z) (a z : Z) :
  z = a \/ In z l -> (fold_left Z.min l a <= z)%Z.
Proof.
  revert a. induction l as [|x l IH]; simpl; intros a Hz.
  - destruct Hz as [-> | []]. lia.
  - destruct Hz as [-> | [-> | Hz]].
    + apply fold_min_acc. lia.
    + apply fold_min_acc. lia.
    + apply IH. now right.
Qed.

Lemma fold_min_ge (l : list Z) (a b : Z) :
  (b <= a)%Z -> Forall (fun z => (b <= z)%Z) l ->
  (b <= fold_left Z.min l a)%Z.
Proof.
  intros Ha Hl. revert a Ha.
  induction Hl as [|x l Hx _ IH]; simpl; intros a Ha; [exact Ha|].
  apply IH. lia.
Qed.

Lemma fold_max_le (l : list Z) (a b : Z) :
  (a <= b)%Z -> Forall (fun z => (z <= b)%Z) l ->
  (fold_left Z.max l a <= b)%Z.
Proof.
  intros Ha Hl. revert a Ha.
  induction Hl as [|x l Hx _ IH]; simpl; intros a Ha; [exact Ha|].
  apply IH. lia.
Qed.

Lemma wrap64_small (z : Z) :
  (- 2 ^ 63 <= z < 2 ^ 63)%Z -> Num.wrap64 z = z.
Proof.
  intros Hz. unfold Num.wrap64. rewrite Z.mod_small; lia.
Qed.

(** X6. In the figure of such a record whose entries have
    [tickLower <= tickUpper], with ticks far enough from the ends of the
    64-bit range for the margin of 50 not to wrap around, the x axis runs
    from 50 below the smallest [tickLower] to 50 above the largest
    [tickUpper], and every rectangle drawn, from its left edge to its right
    edge, lies within the limits with a margin of 50 on both sides. *)
Theorem rectangles_within_xlim (e : slug_entry) (es : list slug_entry)
    (fig : list call) (ts : option cell) :
  Forall (fun e => complete e = true) (e :: es) ->
  Forall (fun e => (- 2 ^ 63 + 50 <= lower e)%Z /\ (lower e <= upper e)%Z /\
                   (upper e <= 2 ^ 63 - 51)%Z) (e :: es) ->
  has_column "currentTick" (e :: es) = true ->
  Forall (fun e => Num.is_inf (raw_liquidity e) = false) (e :: es) ->
  Forall (fun e => Num.is_inf (scaled_liquidity e) = false) (e :: es) ->
  render float_str (e :: es) = (fig, inr ts) ->
  exists lo hi,
    lo = (min_lower (e :: es) - 50)%Z /\ hi = (max_upper (e :: es) + 50)%Z /\
    In (SetXlim (CInt lo) (CInt hi)) fig /\
    (forall lo' hi', In (SetXlim lo' hi') fig ->
                     lo' = CInt lo /\ hi' = CInt hi) /\
    forall rect, In (AddPatch rect) fig ->
      exists x width,
        rect_x rect = CInt x /\ rect_width rect = CInt width /\
        (0 <= width)%Z /\
        (lo + 50 <= x)%Z /\ (x + width <= hi - 50)%Z.
Proof.
  intros Hc Hrange Hct Hraw Hsc Hr.
  rewrite render_complete in Hr by assumption. injection Hr as <- <-.
  assert (Hin : forall x, In x (e :: es) ->
            (- 2 ^ 63 + 50 <= lower x)%Z /\ (lower x <= upper x)%Z /\
            (upper x <= 2 ^ 63 - 51)%Z).
  { intros x Hx. rewrite List.Forall_forall in Hrange. now apply Hrange. }
  assert (Hlo : forall x, In x (e :: es) ->
            (min_lower (e :: es) <= lower x)%Z).
  { intros x Hx. unfold min_lower. apply fold_min_bound.
    destruct Hx as [->|Hx]; [now left | right; now apply in_map]. }
  assert (Hup : forall x, In x (e :: es) ->
            (upper x <= max_upper (e :: es))%Z).
  { intros x Hx. unfold max_upper. apply fold_max_bound.
    destruct Hx as [->|Hx]; [now left | right; now apply in_map]. }
  assert (Hlo' : (- 2 ^ 63 + 50 <= min_lower (e :: es))%Z).
  { unfold min_lower. apply fold_min_ge.
    - apply Hin. now left.
    - apply List.Forall_map, List.Forall_forall. intros x Hx. apply Hin.
      now right. }
  assert (Hup' : (max_upper (e :: es) <= 2 ^ 63 - 51)%Z).
  { unfold max_upper. apply fold_max_le.
    - apply Hin. now left.
    - apply List.Forall_map, List.Forall_forall. intros x Hx. apply Hin.
      now right. }
  pose proof (Hlo e (or_introl eq_refl)) as Hlo0.
  pose proof (Hup e (or_introl eq_refl)) as Hup0.
  pose proof (Hin e (or_introl eq_refl)) as Hin0.
  assert (Wlo : Num.wrap64 (min_lower (e :: es) - 50)
                = (min_lower (e :: es) - 50)%Z)
    by (apply wrap64_small; lia).
  assert (Whi : Num.wrap64 (max_upper (e :: es) + 50)
                = (max_upper (e :: es) + 50)%Z)
    by (apply wrap64_small; lia).
  exists (min_lower (e :: es) - 50)%Z, (max_upper (e :: es) + 50)%Z.
  split; [reflexivity|]. split; [reflexivity|].
  unfold figure. rewrite Wlo, Whi. split; [|split].
  - right. apply in_or_app. right. simpl. tauto.
  - intros lo' hi' [Hf|Hf]; [discriminate|].
    apply in_app_or in Hf as [Hf|Hf].
    + apply in_flat_map in Hf as (x & _ & Hf).
      unfold entry_calls in Hf. simpl in Hf.
      destruct Hf as [Hf|[Hf|[]]]; discriminate.
    + simpl in Hf.
      destruct Hf as [Hf|[Hf|Hf]]; [discriminate | now injection Hf as <- <- |].
      repeat (destruct Hf as [Hf|Hf]; [discriminate|]). destruct Hf.
  - intros rect Hrect.
    destruct Hrect as [Hrect|Hrect]; [discriminate|].
    apply in_app_or in Hrect as [Hrect|Hrect].
    2:{ simpl in Hrect.
        repeat (destruct Hrect as [Hrect|Hrect]; [discriminate|]).
        destruct Hrect. }
    apply in_flat_map in Hrect as (x & Hx & Hrect).
    unfold entry_calls in Hrect. simpl in Hrect.
    destruct Hrect as [Hrect|[Hrect|[]]]; [|discriminate].
    injection Hrect as <-. cbn [rect_x rect_width].
    exists (lower x), (upper x - lower x)%Z.
    pose proof (Hlo x Hx). pose proof (Hup x Hx). pose proof (Hin x Hx).
    repeat split; lia.
Qed.

Lemma round_negative_not_pos (mx ex : Z) (lx : location) :
  Num.is_pos (binary_round_aux Num.prec Num.emax true mx ex lx) = false.
Proof.
  unfold binary_round_aux.
  destruct (shr_fexp Num.prec Num.emax mx ex lx) as [mrs' e'].
  destruct (shr_fexp Num.prec Num.emax _ e' loc_Exact) as [mrs'' e''].
  destruct (shr_m mrs''); try reflexivity.
  destruct (Z.leb e'' _); reflexivity.
Qed.

Lemma of_Z_nonpos (z : Z) : (z <= 0)%Z -> Num.is_pos (Num.of_Z z) = false.
Proof.
  intros Hz. destruct z as [|p|p]; [reflexivity | lia |].
  unfold Num.of_Z, binary_normalize, binary_round.
  destruct (shl_align _ _ _) as [mz ez]. apply round_negative_not_pos.
Qed.

Lemma scaled_not_pos (f : Num.float) :
  Num.is_pos f = false -> Num.is_pos (Num.div f Num.f1e18) = false.
Proof.
  intros Hf. destruct f as [s|s| |s m e]; try reflexivity.
  - destruct s; [reflexivity | discriminate].
  - destruct s; [|discriminate].
    unfold Num.div, Num.f1e18, SFdiv.
    destruct (SFdiv_core_binary _ _ _ _ _ _) as [[mz ez] lz].
    apply round_negative_not_pos.
Qed.

(** X7. In every rendered record the rectangle of an entry has height 0,
    and no logarithm is taken for it, when the entry has no [liquidity] key,
    or an integer liquidity that is zero or negative, or a float liquidity
    that is not positive (zero, negative or NaN). *)
Theorem nonpositive_liquidity_flat (slugs : list slug_entry)
    (fig : list call) (ts : option cell) (i : nat) (e : slug_entry) :
  render float_str slugs = (fig, inr ts) ->
  slugs !! i = Some e ->
  liquidity e = None \/
  (exists z, liquidity e = Some (NInt z) /\ (z <= 0)%Z) \/
  (exists f, liquidity e = Some (NFloat f) /\ Num.is_pos f = false) ->
  rect_heights fig !! i = Some (YInt 0).
Proof.
  intros Hr He Hliq.
  apply render_ok_inv in Hr
    as (df & scaled & ml & mt & nt & rows_fig & cur & lo & hi & pos
        & Hdf & _ & _ & _ & _ & _ & _ & Hrows & _ & _ & ->).
  change (rect_heights (Subplots :: ?t)) with (rect_heights t).
  rewrite rect_heights_app, (render_heights _ _ _ _ Hdf Hrows).
  simpl. rewrite app_nil_r, list_lookup_fmap, He. simpl. f_equal.
  unfold height_of, scaled_liquidity.
  rewrite scaled_not_pos; [reflexivity|].
  destruct Hliq as [-> | [(z & -> & Hz) | (f & -> & Hf)]]; simpl.
  - reflexivity.
  - now apply of_Z_nonpos.
  - exact Hf.
Qed.

End CompleteRecordTheorems.

(** ** What a run does to the directory and to standard output *)

Section RunEffects.

Variable json_loads : string -> parsed.
Variable float_str : Num.float -> string.
Variable plt : backend.






End RunEffects.

(** ** The legend *)

Lemma dict_set_keys {V} (k : string) (v : V) (d : list (string * V)) :
  map fst (dict_set k v d)
  = if decide (k ∈ map fst d) then map fst d else map fst d ++ [k].
Proof.
  induction d as [|[k' v'] d IH]; simpl.
  - reflexivity.
  - destruct (String.eqb_spec k k') as [->|Hne].
    + destruct (decide (k' ∈ k' :: map fst d)) as [_|Hn]; [reflexivity|].
      destruct Hn. apply elem_of_cons. now left.
    + simpl. rewrite IH.
      destruct (decide (k ∈ map fst d)) as [Hin|Hnin];
        destruct (decide (k ∈ k' :: map fst d)) as [H|H];
        try reflexivity.
      * destruct H. apply elem_of_cons. now right.
      * apply elem_of_cons in H as [->|H];
          [now destruct Hne | now destruct Hnin].
Qed.

Lemma dict_set_in {V} (k : string) (v : V) (d : list (string * V)) :
  In (k, v) (dict_set k v d).
Proof.
  induction d as [|[k' v'] d IH]; simpl; [now left|].
  destruct (String.eqb k k'); [now left | now right].
Qed.

Lemma dict_set_other {V} (k k' : string) (v v' : V)
    (d : list (string * V)) :
  k' <> k -> In (k', v') d -> In (k', v') (dict_set k v d).
Proof.
  intros Hne. induction d as [|[k0 v0] d IH]; simpl; [tauto|].
  intros [[= -> ->]|H].
  - destruct (String.eqb_spec k k') as [->|_]; [now destruct Hne | now left].
  - destruct (String.eqb k k0); right; auto.
Qed.

Lemma dict_update_snoc {V} (d : list (string * V))
    (pairs : list (string * V)) (k : string) (v : V) :
  dict_update d (pairs ++ [(k, v)]) = dict_set k v (dict_update d pairs).
Proof. unfold dict_update. now rewrite fold_left_app. Qed.

Lemma dict_update_keeps {V} (d : list (string * V))
    (pairs : list (string * V)) (k : string) (v : V) :
  ~ In k (map fst pairs) -> In (k, v) d -> In (k, v) (dict_update d pairs).
Proof.
  revert d. induction pairs as [|[k' v'] pairs IH]; simpl; intros d Hn Hin.
  - exact Hin.
  - apply IH; [tauto|]. apply dict_set_other; [|exact Hin].
    intros ->. apply Hn. now left.
Qed.

(** X10. The legend has one entry per distinct label, in the order in which
    the labels first occur, and a label used by several artists goes with
    the handle of the last of them. *)
Theorem legend_one_entry_per_label {V} (labels : list string)
    (handles : list V) :
  let pairs := combine labels handles in
  map fst (unique_labels labels handles)
  = rev (remove_dups (rev (map fst pairs))) /\
  NoDup (map fst (unique_labels labels handles)) /\
  (forall k, In k (map fst (unique_labels labels handles)) <->
             In k (map fst pairs)) /\
  (forall before k v after,
     pairs = before ++ (k, v) :: after -> ~ In k (map fst after) ->
     In (k, v) (unique_labels labels handles)).
Proof.
  intros pairs. unfold unique_labels. fold pairs. clearbody pairs.
  assert (Hkeys : map fst (dict_update [] pairs)
                  = rev (remove_dups (rev (map fst pairs)))).
  { induction pairs as [|[k v] pairs IH] using rev_ind; [reflexivity|].
    rewrite dict_update_snoc, dict_set_keys, IH, map_app. simpl.
    rewrite rev_unit. simpl.
    assert (Hiff : k ∈ rev (remove_dups (rev (map fst pairs)))
                   <-> k ∈ rev (map fst pairs)).
    { rewrite list_elem_of_In, <- in_rev, <- list_elem_of_In,
        elem_of_remove_dups. reflexivity. }
    case_decide as Hin;
      destruct (decide_rel elem_of k (rev (map fst pairs))) as [H|H];
      try reflexivity.
    - destruct H. now apply Hiff.
    - destruct Hin. now apply Hiff. }
  split; [exact Hkeys|]. split; [|split].
  - rewrite Hkeys. apply NoDup_ListNoDup, NoDup_rev, NoDup_ListNoDup.
    apply NoDup_remove_dups.
  - intros k. rewrite Hkeys, <- in_rev, <- list_elem_of_In,
      elem_of_remove_dups, list_elem_of_In, <- in_rev. reflexivity.
  - intros before k v after -> Hn. unfold dict_update.
    rewrite fold_left_app. simpl.
    apply (dict_update_keeps _ after k v Hn). apply dict_set_in.
Qed.

(** ** File names *)

Lemma slength_app (a b : string) :
  String.length (a +:+ b) = (String.length a + String.length b)%nat.
Proof. induction a as [|x a IH]; simpl; [|rewrite IH]; reflexivity. Qed.

Lemma sapp_inv_tail (a b s : string) : a +:+ s = b +:+ s -> a = b.
Proof.
  revert b. induction a as [|x a IH]; intros [|y b] H; simpl in H.
  - reflexivity.
  - apply (f_equal String.length) in H. simpl in H.
    rewrite slength_app in H. lia.
  - apply (f_equal String.length) in H. simpl in H.
    rewrite slength_app in H. lia.
  - injection H as -> H. f_equal. now apply IH.
Qed.

Lemma nat_str_inj (i j : nat) : nat_str i = nat_str j -> i = j.
Proof.
  unfold nat_str. intros H.
  apply DecimalNat.Unsigned.to_uint_inj.
  apply (f_equal NilEmpty.uint_of_string) in H.
  rewrite !NilEmpty.usu in H. congruence.
Qed.

Lemma int_str_inj (a b : Z) : int_str a = int_str b -> a = b.
Proof.
  unfold int_str. intros H.
  apply (f_equal NilEmpty.int_of_string) in H.
  rewrite !NilEmpty.isi in H. injection H as H.
  apply (f_equal Z.of_int) in H.
  now rewrite !DecimalZ.of_to in H.
Qed.

Lemma filename_inj (float_str : Num.float -> string) :
  (forall i j, filename float_str i None = filename float_str j None ->
               i = j) /\
  (forall i j a b,
     filename float_str i (Some (CInt a)) = filename float_str j (Some (CInt b))
     -> a = b) /\
  (forall i j s t,
     filename float_str i (Some (CStr s)) = filename float_str j (Some (CStr t))
     -> s = t).
Proof.
  unfold filename, py_str. repeat split.
  - intros i j H. apply String.app_inj in H. apply sapp_inv_tail in H.
    now apply nat_str_inj.
  - intros i j a b H. apply String.app_inj in H. apply sapp_inv_tail in H.
    now apply int_str_inj.
  - intros i j s t H. apply String.app_inj in H.
    now apply sapp_inv_tail in H.
Qed.

(** The timestamp of a record whose entries all carry an integer timestamp
    is the integer of the first entry; the timestamp of a record whose first
    entry carries a string is that string. *)
Lemma int_timestamp (e : slug_entry) (es : list slug_entry) (a : Z) :
  Forall (fun e => is_int (timestamp e) = true) (e :: es) ->
  timestamp e = Some (SNum (NInt a)) ->
  metadata "timestamp" (e :: es) = Some (CInt a).
Proof.
  intros Hall He.
  assert (Hi : forallb is_int (raw_column "timestamp" (e :: es)) = true).
  { unfold raw_column.
    induction Hall as [|x l Hx _ IH]; simpl; [reflexivity|].
    change (field "timestamp" x) with (timestamp x). now rewrite Hx, IH. }
  unfold metadata, has_column, coerce. rewrite Hi.
  simpl. change (field "timestamp" e) with (timestamp e). rewrite He.
  simpl. now destruct (existsb is_str (raw_column "timestamp" es)).
Qed.

Lemma str_timestamp (e : slug_entry) (es : list slug_entry) (s : string) :
  timestamp e = Some (SStr s) ->
  metadata "timestamp" (e :: es) = Some (CStr s).
Proof.
  intros He. unfold metadata, has_column, coerce. simpl.
  change (field "timestamp" e) with (timestamp e). rewrite He. reflexivity.
Qed.

Section FileNames.

Variable float_str : Num.float -> string.
Variable plt : backend.

Lemma saved_name (i : nat) (r : record) (slugs : list slug_entry)
    (name : string) (fig : list call) :
  process_record float_str plt i r = Saved name fig ->
  rec_data r = Some slugs ->
  name = filename float_str i (metadata "timestamp" slugs).
Proof.
  intros H Hd.
  apply process_record_saved in H as (e & es & ts & Hd' & Hr & ->).
  rewrite Hd in Hd'. injection Hd' as ->.
  now rewrite (render_timestamp _ _ _ _ Hr).
Qed.

(** X11. Within one way of naming, the names of saved records do not
    collide.  Two records none of whose entries carries a timestamp, at
    different positions of the block, get different names; so do two records
    whose entries all carry integer timestamps, when the timestamps of their
    first entries differ; and so do two records whose first entries carry
    different strings as timestamps. *)
Theorem filename_injective (i j : nat) (r1 r2 : record)
    (e1 e2 : slug_entry) (es1 es2 : list slug_entry)
    (name1 name2 : string) (fig1 fig2 : list call) :
  process_record float_str plt i r1 = Saved name1 fig1 ->
  process_record float_str plt j r2 = Saved name2 fig2 ->
  rec_data r1 = Some (e1 :: es1) ->
  rec_data r2 = Some (e2 :: es2) ->
  (has_column "timestamp" (e1 :: es1) = false ->
   has_column "timestamp" (e2 :: es2) = false ->
   i <> j -> name1 <> name2) /\
  (forall a b,
     Forall (fun e => is_int (timestamp e) = true) (e1 :: es1) ->
     Forall (fun e => is_int (timestamp e) = true) (e2 :: es2) ->
     timestamp e1 = Some (SNum (NInt a)) ->
     timestamp e2 = Some (SNum (NInt b)) ->
     a <> b -> name1 <> name2) /\
  (forall s t,
     timestamp e1 = Some (SStr s) -> timestamp e2 = Some (SStr t) ->
     s <> t -> name1 <> name2).
Proof.
  intros H1 H2 Hd1 Hd2.
  rewrite (saved_name _ _ _ _ _ H1 Hd1), (saved_name _ _ _ _ _ H2 Hd2).
  destruct (filename_inj float_str) as (Hnone & Hint & Hstr).
  split; [|split].
  - intros Hc1 Hc2 Hne E. apply Hne, Hnone.
    unfold metadata in E. now rewrite Hc1, Hc2 in E.
  - intros a b Ha Hb Hea Heb Hne E. apply Hne.
    rewrite (int_timestamp _ _ _ Ha Hea), (int_timestamp _ _ _ Hb Heb) in E.
    eapply Hint, E.
  - intros s t Hs Ht Hne E. apply Hne.
    rewrite (str_timestamp _ _ _ Hs), (str_timestamp _ _ _ Ht) in E.
    eapply Hstr, E.
Qed.

End FileNames.

(** A timestamp that is a string becomes part of the path: the image can be
    written over a file outside the names [slug_plot_...] of the directory,
    and the run ends with the exception of [plt.savefig] when the path has a
    directory that does not exist. *)
Example string_timestamp_is_a_path :
  let w := {| stdout := []; files := {[ "notes.png" := [Grid] ]} |} in
  (exists fig,
     process_record Samples.float_str Samples.plt_dirs 0
       (Samples.with_data [Samples.e_path])
     = Saved "slug_plot_d/../notes.png" fig /\
     files (savefig Samples.plt_dirs "slug_plot_d/../notes.png" fig w)
     = {[ "notes.png" := fig ]}) /\
  (exists fig,
     process_record Samples.float_str Samples.plt_dirs 0
       (Samples.with_data [Samples.e_nodir])
     = Raised fig OSError).
Proof.
  intros w. split.
  - eexists. split; [vm_compute; reflexivity|].
    unfold savefig, savefig_result. simpl. apply insert_singleton_eq.
  - eexists. vm_compute. reflexivity.
Qed.

(** The upper limit of the x axis wraps around when the largest [tickUpper]
    is within 50 of the largest 64-bit integer. *)
Example xlim_wraps_around :
  exists fig,
    render Samples.float_str [Samples.e_edge]
    = (fig, inr (Some (CInt 12345))) /\
    In (SetXlim (CInt 50) (CInt (- 2 ^ 63 + 49))) fig.
Proof.
  eexists. split; [vm_compute; reflexivity|].
  vm_compute. tauto.
Qed.

Lemma filename_injective_witness :
  process_record Samples.float_str Samples.plt 0
    (Samples.with_data [Samples.e_lower])
  = Saved "slug_plot_12345.png"
      (fst (render Samples.float_str [Samples.e_lower])) /\
  process_record Samples.float_str Samples.plt 1
    (Samples.with_data [Samples.e_later])
  = Saved "slug_plot_12346.png"
      (fst (render Samples.float_str [Samples.e_later])) /\
  "slug_plot_12345.png" <> "slug_plot_12346.png".
Proof.
  assert (H1 : process_record Samples.float_str Samples.plt 0
                 (Samples.with_data [Samples.e_lower])
               = Saved "slug_plot_12345.png"
                   (fst (render Samples.float_str [Samples.e_lower])))
    by (vm_compute; reflexivity).
  assert (H2 : process_record Samples.float_str Samples.plt 1
                 (Samples.with_data [Samples.e_later])
               = Saved "slug_plot_12346.png"
                   (fst (render Samples.float_str [Samples.e_later])))
    by (vm_compute; reflexivity).
  split; [exact H1|]. split; [exact H2|].
  destruct (filename_injective Samples.float_str Samples.plt 0 1 _ _
              Samples.e_lower Samples.e_later [] [] _ _ _ _ H1 H2
              eq_refl eq_refl) as (_ & Hint & _).
  apply (Hint 12345%Z 12346%Z).
  - repeat constructor.
  - repeat constructor.
  - reflexivity.
  - reflexivity.
  - discriminate.
Defined.

(** ** Lines never contain a line break *)

Lemma splitlines_no_linebreak_aux (n : nat) (s : string) :
  String.length s <= n ->
  Forall (fun l => all_chars no_linebreak l = true) (Text.splitlines s).
Proof.
  revert s. induction n as [|n IH]; intros s Hn.
  - destruct s; [constructor | simpl in Hn; lia].
  - destruct s as [|c s]; [constructor|]. simpl in Hn.
    simpl. destruct (Text.is_linebreak c) eqn:Hc.
    + destruct s as [|c' s].
      * repeat constructor.
      * simpl in Hn.
        destruct (Ascii.eqb c Text.CR && Ascii.eqb c' Text.LF);
          constructor; try reflexivity; apply IH; simpl; lia.
    + assert (Hs : Forall (fun l => all_chars no_linebreak l = true)
                     (Text.splitlines s)) by (apply IH; lia).
      destruct (Text.splitlines s) as [|l ls].
      * repeat constructor. simpl. unfold no_linebreak. now rewrite Hc.
      * inversion Hs; subst. constructor; [|assumption].
        simpl. unfold no_linebreak at 1. rewrite Hc. simpl. assumption.
Qed.

(** X12. No line the script works on contains a line-break character (a
    newline, a carriage return, a vertical tab, a form feed, a file, group or
    record separator, or a next-line character). *)
Theorem splitlines_no_linebreak (output : string) :
  Forall (fun l => all_chars no_linebreak l = true) (Text.splitlines output).
Proof. now apply (splitlines_no_linebreak_aux (String.length output)). Qed.

(** ** What the run depends on *)

(** X13. The run is decided by the block alone: the lines before the marker,
    the text of the marker line, the whitespace around the collected lines
    and everything from the first line that does not match on have no
    influence on what is printed, saved or raised. *)
Theorem run_depends_on_block (json_loads : string -> parsed)
    (float_str : Num.float -> string) (plt : backend) (pre : list string)
    (marker : string) (js : list string) (bad : string) (rest : list string)
    (w : world) :
  Forall (fun l => Text.contains "Logs:" l = false) pre ->
  Text.contains "Logs:" marker = true ->
  Forall (fun l => is_json_line l = true) js ->
  is_json_line bad = false ->
  js <> [] ->
  run_lines json_loads float_str plt (pre ++ marker :: js ++ bad :: rest) w
  = run_records json_loads float_str plt 0 (map Text.strip js) w /\
  run_lines json_loads float_str plt (pre ++ marker :: js) w
  = run_records json_loads float_str plt 0 (map Text.strip js) w /\
  run_lines json_loads float_str plt ("Logs:" :: map Text.strip js) w
  = run_records json_loads float_str plt 0 (map Text.strip js) w.
Proof.
  intros Hpre Hm Hjs Hbad Hne.
  assert (Hrun : forall lines n,
            logs_index lines = Some n ->
            collect_json (skipn (S n) lines) = map Text.strip js ->
            run_lines json_loads float_str plt lines w
            = run_records json_loads float_str plt 0 (map Text.strip js) w).
  { intros lines n Hi Hc. unfold run_lines. rewrite Hi, Hc.
    destruct js; [congruence | reflexivity]. }
  split; [|split].
  - apply (Hrun _ (length pre)); [now apply logs_index_first|].
    rewrite skipn_past_marker. apply collect_json_prefix; eauto.
  - apply (Hrun _ (length pre)); [now apply logs_index_first|].
    rewrite skipn_past_marker. rewrite <- (app_nil_r js) at 1.
    apply collect_json_prefix; auto.
  - apply (Hrun _ 0%nat); [reflexivity|]. simpl skipn.
    assert (Hc : collect_json (map Text.strip js)
                 = map Text.strip (map Text.strip js)).
    { rewrite <- (app_nil_r (map Text.strip js)) at 1.
      apply collect_json_prefix; [|auto].
      apply Forall_map. eapply Forall_impl; [exact Hjs|].
      intros l Hl. simpl.
      apply json_line_iff in Hl as (ws & mid & ws' & -> & Hws & Hmid & Hws').
      rewrite strip_json_line by assumption.
      apply json_line_iff. exists EmptyString, mid, EmptyString.
      repeat split; auto. }
    assert (Hs : map Text.strip (map Text.strip js) = map Text.strip js).
    { rewrite map_map. apply map_ext_Forall.
      eapply Forall_impl; [exact Hjs|]. intros l Hl. simpl.
      apply json_line_iff in Hl as (ws & mid & ws' & -> & Hws & Hmid & Hws').
      rewrite strip_json_line by assumption.
      apply (strip_json_line EmptyString mid EmptyString); reflexivity. }
    change (collect_json (map Text.strip js) = map Text.strip js).
    now rewrite Hc, Hs.
Qed.

(** ** The further properties at the sample inputs *)

Lemma json_line_shape_witness :
  is_json_line Samples.l_broken = true /\
  exists ws mid ws',
    Samples.l_broken = ws +:+ "{" +:+ mid +:+ "}" +:+ ws' /\
    all_chars Text.is_space ws = true /\
    all_chars not_newline mid = true /\
    all_chars Text.is_space ws' = true.
Proof.
  assert (H : is_json_line Samples.l_broken = true) by (vm_compute; reflexivity).
  split; [exact H|]. apply json_line_shape. exact H.
Defined.

Lemma logs_index_first_marker_witness :
  logs_index ["noise"; "Ran 1 test. Logs:"; "{}"] = Some 1%nat /\
  exists marker a b,
    ["noise"; "Ran 1 test. Logs:"; "{}"] !! 1%nat = Some marker /\
    marker = a +:+ "Logs:" +:+ b.
Proof.
  assert (H : logs_index ["noise"; "Ran 1 test. Logs:"; "{}"] = Some 1%nat)
    by reflexivity.
  split; [exact H|].
  apply (logs_index_first_marker ["noise"; "Ran 1 test. Logs:"; "{}"] 1) in H.
  exact (proj1 H).
Defined.

Lemma complete_record_saved_witness :
  process_record Samples.float_str Samples.plt 0
    (Samples.with_data [Samples.e_lower; Samples.e_upper])
  = Saved "slug_plot_12345.png"
      (figure Samples.float_str [Samples.e_lower; Samples.e_upper]) /\
  files (savefig Samples.plt "slug_plot_12345.png"
           (figure Samples.float_str [Samples.e_lower; Samples.e_upper])
           Samples.empty_world) !! "slug_plot_12345.png"
  = Some (figure Samples.float_str [Samples.e_lower; Samples.e_upper]).
Proof.
  destruct (complete_record_saved Samples.float_str Samples.plt 0
              (Samples.with_data [Samples.e_lower; Samples.e_upper])
              Samples.e_lower [Samples.e_upper])
    as (_ & _ & H & _).
  - reflexivity.
  - repeat constructor.
  - repeat constructor.
  - reflexivity.
  - repeat constructor.
  - repeat constructor.
  - apply (H "slug_plot_12345.png" Samples.empty_world). reflexivity.
Defined.

Lemma rectangles_within_xlim_witness :
  let fig := figure Samples.float_str [Samples.e_lower; Samples.e_upper] in
  In (SetXlim (CInt 50) (CInt 350)) fig /\
  forall rect,
    In (AddPatch rect) fig ->
    exists x width,
      rect_x rect = CInt x /\ rect_width rect = CInt width /\
      (0 <= width)%Z /\ (50 + 50 <= x)%Z /\ (x + width <= 350 - 50)%Z.
Proof.
  intros fig.
  destruct (rectangles_within_xlim Samples.float_str Samples.e_lower
              [Samples.e_upper] fig (Some (CInt 12345)))
    as (lo & hi & -> & -> & Hlim & _ & Hrect).
  - repeat constructor.
  - repeat constructor; vm_compute; discriminate.
  - reflexivity.
  - repeat constructor.
  - repeat constructor.
  - vm_compute. reflexivity.
  - split; [exact Hlim | exact Hrect].
Defined.

Lemma nonpositive_liquidity_flat_witness :
  rect_heights
    (fst (render Samples.float_str [Samples.e_lower; Samples.e_upper]))
    !! 1%nat
  = Some (YInt 0).
Proof.
  apply (nonpositive_liquidity_flat Samples.float_str
           [Samples.e_lower; Samples.e_upper] _ (Some (CInt 12345)) 1
           Samples.e_upper).
  - vm_compute. reflexivity.
  - reflexivity.
  - right. left. exists 0%Z. split; [reflexivity | lia].
Defined.


Lemma legend_one_entry_per_label_witness :
  In ("lower", 3%nat)
    (unique_labels ["lower"; "upper"; "lower"; "Current Tick"]
       [1%nat; 2%nat; 3%nat; 4%nat]).
Proof.
  destruct (legend_one_entry_per_label
              ["lower"; "upper"; "lower"; "Current Tick"]
              [1%nat; 2%nat; 3%nat; 4%nat]) as (_ & _ & _ & H).
  apply (H [("lower", 1%nat); ("upper", 2%nat)] "lower" 3%nat
           [("Current Tick", 4%nat)]).
  - reflexivity.
  - simpl. intros [H'|[]]. discriminate.
Defined.

Lemma run_depends_on_block_witness :
  run_lines Samples.loads Samples.float_str Samples.plt
    ["noise"; "Logs:"; Samples.l_one; "done"; Samples.l_two]
    Samples.empty_world
  = run_records Samples.loads Samples.float_str Samples.plt 0
      (map Text.strip [Samples.l_one]) Samples.empty_world.
Proof.
  apply (run_depends_on_block Samples.loads Samples.float_str Samples.plt ["noise"]
           "Logs:" [Samples.l_one] "done" [Samples.l_two]
           Samples.empty_world).
  - repeat constructor.
  - reflexivity.
  - repeat constructor.
  - reflexivity.
  - discriminate.
Defined.
